(** * Sudoku solver: a shallow embedding of [sudoko.py] and its properties

    The Python module keeps the board as a list of nine lists of integers
    ([0] marks an empty cell) and, during the search, three lists of nine
    Python sets: the digits still missing from every row, column and 3x3
    box.  The embedding below follows that layout: lists indexed with
    stdpp's lookup, sets as [gset Z], exceptions ([IndexError] for a list
    index out of range, [KeyError] for [set.remove] of an absent element)
    as an explicit error result, and the recursion of [backtrack] bounded
    by a fuel argument whose sufficiency is proved.  The callbacks of the
    window are embedded over the texts of its 81 entries, with the
    builtins [int] and [str] as parameters. *)

From Stdlib Require Import ZArith Lia ZifyNat.
From stdpp Require Import base tactics option list sets gmap strings.

Local Open Scope Z_scope.

(** ** Exceptions *)

Inductive exn := IndexError | KeyError.

Inductive res (A : Type) :=
| Ok (a : A)
| Raise (e : exn).
Arguments Ok {A} a.
Arguments Raise {A} e.

#[global] Instance res_bind : MBind res := λ A B k m,
  match m with
  | Ok a => k a
  | Raise e => Raise e
  end.

(** [l[i]] for a non-negative index. *)
Definition index {A} (l : list A) (i : nat) : res A :=
  match l !! i with
  | Some x => Ok x
  | None => Raise IndexError
  end.

(** A [for] loop threading an accumulator; the first exception aborts it. *)
Fixpoint for_acc {A S} (body : S → A → res S) (acc : S) (l : list A) : res S :=
  match l with
  | [] => Ok acc
  | x :: l' => acc' ← body acc x ; for_acc body acc' l'
  end.

(** A list comprehension [[f x for x in l]]. *)
Fixpoint comprehension {A B} (f : A → res B) (l : list A) : res (list B) :=
  match l with
  | [] => Ok []
  | x :: l' => y ← f x ; ys ← comprehension f l' ; Ok (y :: ys)
  end.

(** A [for] loop whose body may hit [return False]: the result is [true]
    when some iteration returned early. *)
Fixpoint for_return {A} (body : A → res bool) (l : list A) : res bool :=
  match l with
  | [] => Ok false
  | x :: l' => hit ← body x ; if hit : bool then Ok true else for_return body l'
  end.

(** ** Data model *)

Abbreviation Grid := (list (list Z)).

Abbreviation Pos := (nat * nat)%type.

(** [range(n)] and [product(range(n), repeat=2)], in iteration order. *)
Definition range (n : nat) : list nat := seq 0 n.

Definition product2 (n : nat) : list Pos :=
  i ← range n; (λ j, (i, j)) <$> range n.

(** The content of a cell, when both indices are in range. *)
Definition cell (grid : Grid) (p : Pos) : option Z :=
  row ← grid !! p.1; row !! p.2.

(** [grid[row][col]] *)
Definition getitem (grid : Grid) (row col : nat) : res Z :=
  r ← index grid row ; index r col.

(** [grid[row][col] = v] *)
Definition setitem (grid : Grid) (row col : nat) (v : Z) : res Grid :=
  r ← index grid row ;
  if decide (col < length r)%nat then Ok (<[row := <[col := v]> r]> grid)
  else Raise IndexError.

Definition box_index (row col : nat) : nat :=
  ((row / 3) * 3 + col / 3)%nat.

Record Possible := mkPossible {
  rows_possible : list (gset Z);
  cols_possible : list (gset Z);
  boxes_possible : list (gset Z)
}.

(** ** [get_possible_numbers] *)

Definition all_numbers : gset Z := list_to_set (Z.of_nat <$> seq 1 9).

Definition get_possible_numbers (grid : Grid) : res Possible :=
  let rows := (λ row, all_numbers ∖ list_to_set row) <$> grid in
  cols ← comprehension (λ j,
            col ← comprehension (λ i, getitem grid i j) (range 9) ;
            Ok (all_numbers ∖ list_to_set col)) (range 9) ;
  boxes ← for_acc (λ boxes '(br, bc),
            nums ← for_acc (λ (nums : gset Z) '(i, j),
                      n ← getitem grid (br * 3 + i) (bc * 3 + j) ;
                      Ok (nums ∪ {[n]}))
                    ∅ (product2 3) ;
            Ok (boxes ++ [all_numbers ∖ nums]))
          [] (product2 3) ;
  Ok (mkPossible rows cols boxes).

(** ** [is_valid_initial_sudoku] *)

(** [len(l) != len(set(l))] *)
Definition has_duplicates (l : list Z) : bool :=
  negb (length l =? size (list_to_set l : gset Z))%nat.

Definition nonzero (n : Z) : Prop := n ≠ 0.

(** Lines 52-53, 56-57 and 60-65: the test made for one row, one column
    and one box; [true] means the test fires and the function returns
    [False]. *)
Definition row_check (grid : Grid) (i : nat) : res bool :=
  row ← index grid i ;
  let row_nums := filter nonzero row in
  Ok (has_duplicates row_nums).

Definition col_check (grid : Grid) (j : nat) : res bool :=
  col ← comprehension (λ i, getitem grid i j) (range 9) ;
  let col_nums := filter nonzero col in
  Ok (has_duplicates col_nums).

Definition box_check (grid : Grid) (box : Pos) : res bool :=
  let '(br, bc) := box in
  nums ← for_acc (λ nums '(i, j),
            n ← getitem grid (br * 3 + i) (bc * 3 + j) ;
            Ok (if decide (n ≠ 0) then nums ++ [n] else nums))
          [] (product2 3) ;
  Ok (has_duplicates nums).

Definition is_valid_initial_sudoku (grid : Grid) : res bool :=
  bad ← for_return (row_check grid) (range 9) ;
  if bad : bool then Ok false else
  bad ← for_return (col_check grid) (range 9) ;
  if bad : bool then Ok false else
  bad ← for_return (box_check grid) (product2 3) ;
  if bad : bool then Ok false else Ok true.

(** ** The possibility state during the search *)

Record State := mkState {
  grid : Grid;
  possible : Possible
}.

(** [s.remove(x)] raises [KeyError] when [x] is absent. *)
Definition set_remove (s : gset Z) (x : Z) : res (gset Z) :=
  if decide (x ∈ s) then Ok (s ∖ {[x]}) else Raise KeyError.

(** [sets[i].remove(x)] and [sets[i].add(x)]: the [i]-th set is updated
    in place, the other sets of the list are untouched. *)
Definition remove_at (sets : list (gset Z)) (i : nat) (x : Z) : res (list (gset Z)) :=
  s ← index sets i ;
  s' ← set_remove s x ;
  Ok (<[i := s']> sets).

Definition add_at (sets : list (gset Z)) (i : nat) (x : Z) : res (list (gset Z)) :=
  s ← index sets i ;
  Ok (<[i := s ∪ {[x]}]> sets).

(** Lines 33-35 of [backtrack]. *)
Definition place (p : Possible) (row col : nat) (num : Z) : res Possible :=
  rows ← remove_at (rows_possible p) row num ;
  cols ← remove_at (cols_possible p) col num ;
  boxes ← remove_at (boxes_possible p) (box_index row col) num ;
  Ok (mkPossible rows cols boxes).

(** Lines 41-43 of [backtrack]. *)
Definition unplace (p : Possible) (row col : nat) (num : Z) : res Possible :=
  rows ← add_at (rows_possible p) row num ;
  cols ← add_at (cols_possible p) col num ;
  boxes ← add_at (boxes_possible p) (box_index row col) num ;
  Ok (mkPossible rows cols boxes).

(** Line 28: [rows_possible[row] & cols_possible[col] & boxes_possible[box_index]]. *)
Definition candidates (p : Possible) (row col : nat) : res (gset Z) :=
  r ← index (rows_possible p) row ;
  c ← index (cols_possible p) col ;
  b ← index (boxes_possible p) (box_index row col) ;
  Ok (r ∩ c ∩ b).

(** Lines 32-35: write the digit, then update the three sets. *)
Definition assign (st : State) (row col : nat) (num : Z) : res State :=
  g ← setitem (grid st) row col num ;
  p ← place (possible st) row col num ;
  Ok (mkState g p).

(** Lines 40-43: clear the cell, then give the digit back. *)
Definition retract (st : State) (row col : nat) (num : Z) : res State :=
  g ← setitem (grid st) row col 0 ;
  p ← unplace (possible st) row col num ;
  Ok (mkState g p).

(** ** [backtrack] and [solve_sudoku] *)

(** What a call of [backtrack] ends with: a boolean and the state it
    leaves behind, an exception, or an exhausted recursion budget. *)
Inductive outcome :=
| Done (b : bool) (st : State)
| Raised (e : exn)
| OutOfFuel.

(** Besides its outcome a call yields the list of the states reached
    right after every placement (line 35) and after every withdrawal
    (line 43), in the order in which they occur. *)
Definition run : Type := list State * outcome.

Section Model.

(** The order in which [for num in candidates] visits a Python set is
    an implementation detail of the interpreter; it is some enumeration
    without repetition of the set, which may differ from one point of
    the search to the next. *)
Variable order : State → gset Z → list Z.
Hypothesis order_perm : ∀ st s, order st s ≡ₚ elements s.

(** The loop of lines 31-44, [rec] being the recursive call. *)
Fixpoint try_candidates (rec : State → run) (row col : nat)
    (nums : list Z) (st : State) : run :=
  match nums with
  | [] => ([], Done false st)
  | num :: rest =>
      match assign st row col num with
      | Raise e => ([], Raised e)
      | Ok st1 =>
          match rec st1 with
          | (tr, Done true st2) => (st1 :: tr, Done true st2)
          | (tr, Done false st2) =>
              match retract st2 row col num with
              | Raise e => (st1 :: tr, Raised e)
              | Ok st3 =>
                  let '(tr', o) := try_candidates rec row col rest st3 in
                  (st1 :: tr ++ st3 :: tr', o)
              end
          | (tr, o) => (st1 :: tr, o)
          end
      end
  end.

(** The loop of lines 25-45 over the cells in row-major order. *)
Fixpoint scan (rec : State → run) (cells : list Pos) (st : State) : run :=
  match cells with
  | [] => ([], Done true st)
  | (row, col) :: rest =>
      match getitem (grid st) row col with
      | Raise e => ([], Raised e)
      | Ok v =>
          if decide (v = 0) then
            match candidates (possible st) row col with
            | Raise e => ([], Raised e)
            | Ok cands =>
                if decide (cands = ∅) then ([], Done false st)
                else try_candidates rec row col (order st cands) st
            end
          else scan rec rest st
      end
  end.

Fixpoint backtrack (fuel : nat) (st : State) : run :=
  match fuel with
  | O => ([], OutOfFuel)
  | S fuel' => scan (backtrack fuel') (product2 9) st
  end.

Definition solve_sudoku (fuel : nat) (grid : Grid) : run :=
  match get_possible_numbers grid with
  | Raise e => ([], Raised e)
  | Ok p => backtrack fuel (mkState grid p)
  end.

End Model.

(** ** The window *)

(** The two callbacks the button can be bound to. *)
Inductive command := solve_button_click_command | reset_grid_command.

(** What the callbacks read and change: the texts of the 81 entry
    widgets, whether the heading is on the grid, and the text and the
    callback of the button. *)
Record Window := mkWindow {
  entries : list (list string);
  heading_shown : bool;
  button_text : string;
  button_command : command
}.

(** A dialog of [messagebox], with its title and message. *)
Inductive popup :=
| showerror (title message : string)
| showinfo (title message : string).

(** [entries[i][j].get()] *)
Definition get_text (entries : list (list string)) (i j : nat) : res string :=
  r ← index entries i ; index r j.

(** The text of an entry widget is replaced by [s]. *)
Definition set_text (entries : list (list string)) (i j : nat) (s : string)
    : res (list (list string)) :=
  r ← index entries i ;
  if decide (j < length r)%nat then Ok (<[i := <[j := s]> r]> entries)
  else Raise IndexError.

(** [entries[i][j].delete(0, tk.END)] *)
Definition delete_text (entries : list (list string)) (i j : nat)
    : res (list (list string)) :=
  set_text entries i j EmptyString.

(** [entries[i][j].insert(0, s)] *)
Definition insert_text (entries : list (list string)) (i j : nat) (s : string)
    : res (list (list string)) :=
  old ← get_text entries i j ;
  set_text entries i j (s +:+ old).

(** A loop that appends one item per iteration to a list, unless an
    iteration shows a dialog and returns [None]. *)
Fixpoint for_append {A B E} (f : A → res (B + E)) (acc : list B) (l : list A)
    : res (list B + E) :=
  match l with
  | [] => Ok (inl acc)
  | x :: l' =>
      r ← f x ;
      match r with
      | inl b => for_append f (acc ++ [b]) l'
      | inr e => Ok (inr e)
      end
  end.

Section Gui.

(** [int] applied to the text of an entry ([None] for [ValueError]) and
    [str] applied to an integer: builtins of the interpreter. *)
Variable int : string → option Z.
Variable str : Z → string.

Definition invalid_input : popup :=
  showerror "Invalid Input" "Enter numbers 1-9 only.".

Definition incorrect : popup := showinfo "Sudoku" "Sudoku is incorrect".

(** Lines 78-90: what one entry contributes, a number appended to the
    row, or the dialog after which [None] is returned. *)
Definition read_entry (val : string) : Z + popup :=
  if decide (val = EmptyString) then inl 0
  else match int val with
       | Some num => if decide (1 ≤ num ≤ 9) then inl num else inr invalid_input
       | None => inr invalid_input
       end.

(** The result is the grid, or the dialog shown before [None] was
    returned. *)
Definition get_grid_from_entries (entries : list (list string))
    : res (Grid + popup) :=
  for_append (λ i,
      for_append (λ j, val ← get_text entries i j ; Ok (read_entry val))
        [] (range 9))
    [] (range 9).

Definition fill_grid_to_entries (grid : Grid) (entries : list (list string))
    : res (list (list string)) :=
  for_acc (λ es i,
      for_acc (λ es j,
          es ← delete_text es i j ;
          n ← getitem grid i j ;
          insert_text es i j (str n))
        es (range 9))
    entries (range 9).

Definition reset_grid (w : Window) : res Window :=
  es ← for_acc (λ es i, for_acc (λ es j, delete_text es i j) es (range 9))
         (entries w) (range 9) ;
  Ok (mkWindow es true "Solve Sudoku" solve_button_click_command).

(** What a click on the button ends with: the window and the dialogs that
    were shown, an exception, or an exhausted recursion budget. *)
Inductive click :=
| Shown (w : Window) (dialogs : list popup)
| Click_raised (e : exn)
| Click_out_of_fuel.

Variable order : State → gset Z → list Z.

Definition solve_button_click (fuel : nat) (w : Window) : click :=
  match get_grid_from_entries (entries w) with
  | Raise e => Click_raised e
  | Ok (inr dialog) => Shown w [dialog]
  | Ok (inl board) =>
      match is_valid_initial_sudoku board with
      | Raise e => Click_raised e
      | Ok false => Shown w [incorrect]
      | Ok true =>
          match solve_sudoku order fuel board with
          | (_, Done true st) =>
              match fill_grid_to_entries (grid st) (entries w) with
              | Raise e => Click_raised e
              | Ok es => Shown (mkWindow es false "Reset" reset_grid_command) []
              end
          | (_, Done false _) => Shown w [incorrect]
          | (_, Raised e) => Click_raised e
          | (_, OutOfFuel) => Click_out_of_fuel
          end
      end
  end.

End Gui.

(** Lines 126-151: the window as the module builds it. *)
Definition initial_window : Window :=
  mkWindow (replicate 9 (replicate 9 EmptyString)) true "Solve Sudoku"
    solve_button_click_command.

(** * Specification *)

(** ** Boards, units and states *)

(** Nine rows of nine cells. *)
Definition shape9 (g : Grid) : Prop :=
  length g = 9%nat ∧ Forall (λ row, length row = 9%nat) g.

(** The content of a cell, [0] where there is none. *)
Definition value (g : Grid) (p : Pos) : Z := default 0 (cell g p).

(** The cells of row [r], of column [c] and of box [b], the boxes being
    numbered the way [box_index] numbers them. *)
Definition row_cells (r : nat) : list Pos := (λ c, (r, c)) <$> range 9.

Definition col_cells (c : nat) : list Pos := (λ r, (r, c)) <$> range 9.

Definition box_cells (b : nat) : list Pos :=
  (λ '(i, j), (b / 3 * 3 + i, b mod 3 * 3 + j)%nat) <$> product2 3.

(** The non-zero digits on the given cells are pairwise distinct. *)
Definition distinct_on (g : Grid) (cells : list Pos) : Prop :=
  ∀ p q v, p ∈ cells → q ∈ cells →
    cell g p = Some v → cell g q = Some v → v ≠ 0 → p = q.

(** [sets !! i] holds exactly the digits 1-9 that do not occur on the
    cells of [unit i]. *)
Definition tracks (g : Grid) (unit : nat → list Pos) (sets : list (gset Z)) : Prop :=
  length sets = 9%nat ∧
  ∀ i s, sets !! i = Some s →
    ∀ v, v ∈ s ↔ 1 ≤ v ≤ 9 ∧ ∀ p, p ∈ unit i → cell g p ≠ Some v.

Definition consistent_state (st : State) : Prop :=
  shape9 (grid st) ∧
  tracks (grid st) row_cells (rows_possible (possible st)) ∧
  tracks (grid st) col_cells (cols_possible (possible st)) ∧
  tracks (grid st) box_cells (boxes_possible (possible st)).

(** The number of empty cells, the measure of the recursion. *)
Definition empties (g : Grid) : nat :=
  length (filter (λ p, cell g p = Some 0) (product2 9)).

(** The digits 1-9 that do not occur on the given cells. *)
Definition missing (g : Grid) (cells : list Pos) : gset Z :=
  all_numbers ∖ list_to_set (value g <$> cells).

(** Every entry of the board is an integer between 0 and 9. *)
Definition digits09 (g : Grid) : Prop := Forall (Forall (λ v, 0 ≤ v ≤ 9)) g.

(** The same, cell by cell. *)
Definition cells09 (g : Grid) : Prop := ∀ p v, cell g p = Some v → 0 ≤ v ≤ 9.

(** No row, column or box holds a non-zero digit twice. *)
Definition no_duplicates (g : Grid) : Prop :=
  ∀ i, (i < 9)%nat →
    distinct_on g (row_cells i) ∧ distinct_on g (col_cells i) ∧
    distinct_on g (box_cells i).

(** No cell of the board is empty. *)
Definition full (g : Grid) : Prop := ∀ p, p ∈ product2 9 → cell g p ≠ Some 0.

(** [sol] fills the empty cells of [g] with digits 1-9 so that no row,
    column or box holds a digit twice. *)
Definition completes (g sol : Grid) : Prop :=
  shape9 sol ∧
  (∀ p v, cell g p = Some v → v ≠ 0 → cell sol p = Some v) ∧
  (∀ p v, cell sol p = Some v → 1 ≤ v ≤ 9) ∧
  no_duplicates sol.

(** Whether some non-zero digit occurs twice on the given cells. *)
Definition repeats (g : Grid) (cells : list Pos) : bool :=
  has_duplicates (filter nonzero (value g <$> cells)).

(** [g1] is [g] with [num] written at [pos]. *)
Definition written (g g1 : Grid) (pos : Pos) (num : Z) : Prop :=
  ∀ p, cell g1 p = if decide (p = pos) then Some num else cell g p.

(** Exactly one of the given cells holds [v]. *)
Definition exactly_once (g : Grid) (cells : list Pos) (v : Z) : Prop :=
  ∃ p, p ∈ cells ∧ cell g p = Some v ∧ ∀ q, q ∈ cells → cell g q = Some v → q = p.

(** Every cell holds a digit 1-9, and every row, column and box holds
    each of the digits 1-9 exactly once. *)
Definition solved (g : Grid) : Prop :=
  (∀ p, p ∈ product2 9 → ∃ v, cell g p = Some v ∧ 1 ≤ v ≤ 9) ∧
  ∀ i v, (i < 9)%nat → 1 ≤ v ≤ 9 →
    exactly_once g (row_cells i) v ∧ exactly_once g (col_cells i) v ∧
    exactly_once g (box_cells i) v.

(** Writing [v] at [(r, c)] repeats no digit of its row, column or box. *)
Definition placeable (g : Grid) (r c : nat) (v : Z) : Prop :=
  (∀ c', (c' < 9)%nat → cell g (r, c') ≠ Some v) ∧
  (∀ r', (r' < 9)%nat → cell g (r', c) ≠ Some v) ∧
  (∀ r' c', (r' < 9)%nat → (c' < 9)%nat →
     box_index r' c' = box_index r c → cell g (r', c') ≠ Some v).

(** The digit of a filled cell is absent from the sets of its row, column
    and box; for an empty cell, a digit is in all three sets exactly when
    it can be written there. *)
Definition possibility_invariant (st : State) : Prop :=
  ∀ r c, (r < 9)%nat → (c < 9)%nat →
    ∃ R C B x,
      rows_possible (possible st) !! r = Some R ∧
      cols_possible (possible st) !! c = Some C ∧
      boxes_possible (possible st) !! box_index r c = Some B ∧
      cell (grid st) (r, c) = Some x ∧
      (x ≠ 0 → x ∉ R ∧ x ∉ C ∧ x ∉ B) ∧
      (x = 0 → ∀ v, 1 ≤ v ≤ 9 →
         (v ∈ R ∧ v ∈ C ∧ v ∈ B) ↔ placeable (grid st) r c v).

(** A run started in a consistent state [st] has searched when it ends
    with a result, has only been through consistent states, leaves a full
    board when the result is [True], keeps the digits in range and free of
    duplicates when they were, and answers [False] only when the board of
    [st] has no completion. *)
Definition searched (st : State) (r : run) : Prop :=
  ∃ tr b st', r = (tr, Done b st') ∧
    Forall consistent_state tr ∧ consistent_state st' ∧
    (b = true → full (grid st')) ∧
    (cells09 (grid st) → cells09 (grid st')) ∧
    (no_duplicates (grid st) → no_duplicates (grid st')) ∧
    (b = false → ∀ sol, ¬ completes (grid st) sol).

(** The filled cells of [st] hold the same digits in [st']. *)
Definition keeps (st st' : State) : Prop :=
  ∀ p v, cell (grid st) p = Some v → v ≠ 0 → cell (grid st') p = Some v.

(** A run started in [st] is framed when all the states it goes through
    and the one it ends in keep the filled cells of [st], a [False] result
    comes with the very state it started from, and no [set.remove] has
    failed. *)
Definition framed (st : State) (r : run) : Prop :=
  Forall (keeps st) r.1 ∧
  match r.2 with
  | Done b st' => (b = false → st' = st) ∧ keeps st st'
  | Raised e => e = IndexError
  | OutOfFuel => True
  end.

(** ** Boards of any shape, exceptions and entries *)

(** Every cell of the 9x9 area holds a non-zero value. *)
Definition filled (g : Grid) : Prop :=
  ∀ p, p ∈ product2 9 → ∃ v, cell g p = Some v ∧ v ≠ 0.

(** The only exception a computation can end with is [IndexError]. *)
Definition only_IndexError {A} (m : res A) : Prop :=
  ∀ e, m = Raise e → e = IndexError.

(** All the cells of the 9x9 area exist. *)
Definition has_9x9 (g : Grid) : Prop :=
  ∀ p, p ∈ product2 9 → is_Some (cell g p).

(** What the search needs of a state to run without exception: the 81
    cells exist, there are sets for nine rows, columns and boxes, and no
    set holds 0. *)
Definition runnable (st : State) : Prop :=
  has_9x9 (grid st) ∧
  (9 ≤ length (rows_possible (possible st)))%nat ∧
  (9 ≤ length (cols_possible (possible st)))%nat ∧
  (9 ≤ length (boxes_possible (possible st)))%nat ∧
  Forall (λ s : gset Z, 0 ∉ s) (rows_possible (possible st)) ∧
  Forall (λ s : gset Z, 0 ∉ s) (cols_possible (possible st)) ∧
  Forall (λ s : gset Z, 0 ∉ s) (boxes_possible (possible st)).

(** The text of the entry at a position, when there is one. *)
Definition entry_text (entries : list (list string)) (p : Pos) : option string :=
  row ← entries !! p.1; row !! p.2.

(** Nine rows of nine entries. *)
Definition entries9 (entries : list (list string)) : Prop :=
  length entries = 9%nat ∧ Forall (λ row, length row = 9%nat) entries.

(** The texts [str] gives for the cells of a board. *)
Definition printed (str : Z → string) (g : Grid) : list (list string) :=
  (λ row : list Z, str <$> row) <$> g.

(** ** Sample boards *)

(** A well-known puzzle with a single solution. *)
Definition puzzle : Grid := [
  [5;3;0; 0;7;0; 0;0;0];
  [6;0;0; 1;9;5; 0;0;0];
  [0;9;8; 0;0;0; 0;6;0];
  [8;0;0; 0;6;0; 0;0;3];
  [4;0;0; 8;0;3; 0;0;1];
  [7;0;0; 0;2;0; 0;0;6];
  [0;6;0; 0;0;0; 2;8;0];
  [0;0;0; 4;1;9; 0;0;5];
  [0;0;0; 0;8;0; 0;7;9]].

Definition puzzle_solution : Grid := [
  [5;3;4; 6;7;8; 9;1;2];
  [6;7;2; 1;9;5; 3;4;8];
  [1;9;8; 3;4;2; 5;6;7];
  [8;5;9; 7;6;1; 4;2;3];
  [4;2;6; 8;5;3; 7;9;1];
  [7;1;3; 9;2;4; 8;5;6];
  [9;6;1; 5;3;7; 2;8;4];
  [2;8;7; 4;1;9; 6;3;5];
  [3;4;5; 2;8;6; 1;7;9]].

(** A board without repeated digits and without solution: the first row
    lacks 1 and 2, and neither of its two empty cells can take the 1. *)
Definition dead_end : Grid := [
  [0;0;3; 4;5;6; 7;8;9];
  [0;0;0; 0;0;0; 0;0;0];
  [0;0;0; 0;0;0; 0;0;0];
  [1;0;0; 0;0;0; 0;0;0];
  [0;0;0; 0;0;0; 0;0;0];
  [0;0;0; 0;0;0; 0;0;0];
  [0;1;0; 0;0;0; 0;0;0];
  [0;0;0; 0;0;0; 0;0;0];
  [0;0;0; 0;0;0; 0;0;0]].

(** One possible iteration order of the candidate sets. *)
Definition enumeration (_ : State) (s : gset Z) : list Z := elements s.

Definition no_state : State := mkState [] (mkPossible [] [] []).

Definition state_of (g : Grid) : State :=
  match get_possible_numbers g with
  | Ok p => mkState g p
  | Raise _ => no_state
  end.

Definition final_state (r : run) : State :=
  match r.2 with
  | Done _ st => st
  | _ => no_state
  end.

(** The solution of the puzzle with three cells cleared. *)
Definition almost_solved : Grid := [
  [5;3;0; 0;7;8; 9;1;2];
  [6;7;2; 1;9;5; 3;4;8];
  [1;9;8; 3;4;2; 5;6;7];
  [8;5;9; 7;6;1; 4;2;3];
  [4;2;6; 8;0;3; 7;9;1];
  [7;1;3; 9;2;4; 8;5;6];
  [9;6;1; 5;3;7; 2;8;4];
  [2;8;7; 4;1;9; 6;3;5];
  [3;4;5; 2;8;6; 1;7;9]].

Definition puzzle_run : run := solve_sudoku enumeration 82 puzzle.

Definition easy_run : run := solve_sudoku enumeration 82 almost_solved.

Definition dead_end_run : run := solve_sudoku enumeration 82 dead_end.

(** The sets of a board whose first cell holds a 1: the digit 1 is absent
    from the sets of row 0, column 0 and box 0. *)
Definition one_used : Possible :=
  let sets := (all_numbers ∖ {[1]}) :: replicate 8 all_numbers in
  mkPossible sets sets sets.

(** The sets of the empty board. *)
Definition all_free : Possible :=
  let sets := replicate 9 all_numbers in mkPossible sets sets sets.

#[global] Instance shape9_dec g : Decision (shape9 g).
Proof. unfold shape9. apply _. Defined.

#[global] Instance digits09_dec g : Decision (digits09 g).
Proof. unfold digits09. apply _. Defined.

(** A full board that repeats its digit everywhere. *)
Definition all_ones : Grid := replicate 9 (replicate 9 1).

(** A board that is too small. *)
Definition short_board : Grid := [[1; 2]; [3; 4]].

(** The sets of the empty board after 5 has been placed in its first cell. *)
Definition five_placed : Possible :=
  match place all_free 0 0 5 with
  | Ok p => p
  | Raise _ => all_free
  end.

(** A printer and a reader of single digits, standing for [str] and [int]. *)
Definition digit_str (n : Z) : string :=
  match n with
  | 1 => "1" | 2 => "2" | 3 => "3" | 4 => "4" | 5 => "5"
  | 6 => "6" | 7 => "7" | 8 => "8" | 9 => "9" | _ => "0"
  end.

Definition digit_int (s : string) : option Z :=
  head (filter (λ n, digit_str n = s) (seqZ 0 10)).

(** The entries of a board, the empty cells being left empty. *)
Definition texts_of (g : Grid) : list (list string) :=
  (λ row : list Z, (λ n, if decide (n = 0) then EmptyString else digit_str n) <$> row) <$> g.

(** Entries whose first one holds a number that is not a digit. *)
Definition typo_texts : list (list string) :=
  ("12" :: replicate 8 EmptyString) :: replicate 8 (replicate 9 EmptyString).

Definition almost_solved_window : Window :=
  mkWindow (texts_of almost_solved) true "Solve Sudoku" solve_button_click_command.

#[global] Instance entries9_dec es : Decision (entries9 es).
Proof. unfold entries9. apply _. Defined.

(** * Properties *)

(** ** Lists, cells and exceptions *)

Ltac res_simpl := cbn [mbind res_bind].

Lemma index_Ok {A} (l : list A) i x : index l i = Ok x ↔ l !! i = Some x.
Proof. unfold index. destruct (l !! i); split; congruence. Qed.

Lemma bind_Ok {A B} (m : res A) (k : A → res B) b :
  (x ← m; k x) = Ok b ↔ ∃ a, m = Ok a ∧ k a = Ok b.
Proof.
  destruct m as [a|e]; simpl; split.
  - eauto.
  - intros (a' & [= <-] & ?); done.
  - discriminate.
  - intros (? & ? & ?); discriminate.
Qed.

Lemma getitem_Ok g r c v : getitem g r c = Ok v ↔ cell g (r, c) = Some v.
Proof.
  unfold getitem, cell, index; simpl.
  destruct (g !! r) as [rw|]; simpl; [|by split].
  destruct (rw !! c); split; congruence.
Qed.

Lemma getitem_cell g r c :
  getitem g r c = match cell g (r, c) with Some v => Ok v | None => Raise IndexError end.
Proof.
  unfold getitem, cell, index; simpl.
  destruct (g !! r) as [rw|]; simpl; [|done]. by destruct (rw !! c).
Qed.

Lemma setitem_Ok g r c v :
  is_Some (cell g (r, c)) → ∃ g', setitem g r c v = Ok g' ∧
    ∀ p, cell g' p = if decide (p = (r, c)) then Some v else cell g p.
Proof.
  unfold cell, setitem, index; simpl. intros [x Hx].
  destruct (g !! r) as [rw|] eqn:Hr; simpl in *; [|done].
  apply lookup_lt_Some in Hx as Hc.
  rewrite decide_True by done. eexists; split; [done|].
  intros [r' c']; simpl. apply lookup_lt_Some in Hr as Hlt.
  destruct (decide (r' = r)) as [->|Hne].
  - rewrite list_lookup_insert_eq by done. simpl.
    destruct (decide (c' = c)) as [->|Hne'].
    + rewrite decide_True by done. by apply list_lookup_insert_eq.
    + rewrite decide_False by congruence.
      rewrite list_lookup_insert_ne by done. by rewrite Hr.
  - rewrite decide_False by congruence. by rewrite list_lookup_insert_ne.
Qed.

(** Writing a digit into an empty cell and clearing it again gives back
    the very same grid. *)
Lemma setitem_undo g r c v g1 :
  cell g (r, c) = Some 0 → setitem g r c v = Ok g1 → setitem g1 r c 0 = Ok g.
Proof.
  unfold cell, setitem, index; simpl. intros Hc.
  destruct (g !! r) as [rw|] eqn:Hr; simpl in *; [|done].
  apply lookup_lt_Some in Hc as Hlt. apply lookup_lt_Some in Hr as Hlt'.
  rewrite decide_True by done. intros [= <-].
  rewrite list_lookup_insert_eq by done. simpl.
  rewrite decide_True by (by rewrite length_insert).
  rewrite !list_insert_insert_eq. f_equal.
  rewrite (list_insert_id rw) by done. by apply list_insert_id.
Qed.

Lemma remove_at_Ok sets i x s :
  sets !! i = Some s → x ∈ s → remove_at sets i x = Ok (<[i := s ∖ {[x]}]> sets).
Proof.
  intros Hs Hx. unfold remove_at, set_remove, index. rewrite Hs; simpl.
  by rewrite decide_True.
Qed.

Lemma add_at_remove_at sets i x sets' :
  remove_at sets i x = Ok sets' → add_at sets' i x = Ok sets.
Proof.
  unfold remove_at, add_at, set_remove, index.
  destruct (sets !! i) as [s|] eqn:Hs; simpl; [|done].
  destruct (decide (x ∈ s)) as [Hx|]; simpl; [|done]. intros [= <-].
  apply lookup_lt_Some in Hs as Hlt.
  rewrite list_lookup_insert_eq by done. simpl.
  rewrite list_insert_insert_eq. f_equal.
  apply list_insert_id. rewrite Hs. f_equal.
  apply set_eq. intros y. rewrite elem_of_union, elem_of_difference, elem_of_singleton.
  destruct (decide (y = x)) as [->|]; tauto.
Qed.

Lemma remove_at_not_KeyError sets i x s :
  sets !! i = Some s → x ∈ s → ∃ sets', remove_at sets i x = Ok sets'.
Proof. intros. eexists. by eapply remove_at_Ok. Qed.

(** [unplace] undoes a successful [place]. *)
Lemma unplace_after_place p r c v p' :
  place p r c v = Ok p' → unplace p' r c v = Ok p.
Proof.
  unfold place, unplace. destruct p as [rs cs bs]; simpl.
  intros (rs' & Hr & (cs' & Hc & (bs' & Hb & [= <-])%bind_Ok)%bind_Ok)%bind_Ok.
  simpl. by rewrite (add_at_remove_at _ _ _ _ Hr), (add_at_remove_at _ _ _ _ Hc),
    (add_at_remove_at _ _ _ _ Hb).
Qed.

(** [place] succeeds as soon as the digit is a member of the three sets. *)
Lemma place_Ok p r c v R C B :
  rows_possible p !! r = Some R → cols_possible p !! c = Some C →
  boxes_possible p !! box_index r c = Some B →
  v ∈ R → v ∈ C → v ∈ B →
  place p r c v = Ok (mkPossible (<[r := R ∖ {[v]}]> (rows_possible p))
                                 (<[c := C ∖ {[v]}]> (cols_possible p))
                                 (<[box_index r c := B ∖ {[v]}]> (boxes_possible p))).
Proof.
  intros HR HC HB ???. unfold place.
  rewrite (remove_at_Ok _ _ _ _ HR), (remove_at_Ok _ _ _ _ HC),
    (remove_at_Ok _ _ _ _ HB) by done. done.
Qed.

Lemma candidates_Ok p r c s :
  candidates p r c = Ok s ↔ ∃ R C B,
    rows_possible p !! r = Some R ∧ cols_possible p !! c = Some C ∧
    boxes_possible p !! box_index r c = Some B ∧ s = R ∩ C ∩ B.
Proof.
  unfold candidates, index.
  destruct (rows_possible p !! r) as [R|]; simpl;
    [|split; [done|by intros (? & ? & ? & ? & _)]].
  destruct (cols_possible p !! c) as [C|]; simpl;
    [|split; [done|by intros (? & ? & ? & _ & ? & _)]].
  destruct (boxes_possible p !! box_index r c) as [B|]; simpl;
    [|split; [done|by intros (? & ? & ? & _ & _ & ? & _)]].
  split.
  - intros [= <-]. by exists R, C, B.
  - by intros (? & ? & ? & [= <-] & [= <-] & [= <-] & ->).
Qed.

(** A candidate can be written into an empty cell, and withdrawing it
    afterwards restores the state. *)
Lemma assign_candidate st r c R C B v :
  cell (grid st) (r, c) = Some 0 →
  rows_possible (possible st) !! r = Some R →
  cols_possible (possible st) !! c = Some C →
  boxes_possible (possible st) !! box_index r c = Some B →
  v ∈ R → v ∈ C → v ∈ B →
  ∃ g1, setitem (grid st) r c v = Ok g1 ∧
    (∀ p, cell g1 p = if decide (p = (r, c)) then Some v else cell (grid st) p) ∧
    let st1 := mkState g1
      (mkPossible (<[r := R ∖ {[v]}]> (rows_possible (possible st)))
                  (<[c := C ∖ {[v]}]> (cols_possible (possible st)))
                  (<[box_index r c := B ∖ {[v]}]> (boxes_possible (possible st)))) in
    assign st r c v = Ok st1 ∧ retract st1 r c v = Ok st.
Proof.
  intros Hc HR HC HB HvR HvC HvB.
  destruct (setitem_Ok (grid st) r c v) as (g1 & Hg1 & Hcell); [by rewrite Hc|].
  pose proof (place_Ok _ _ _ v _ _ _ HR HC HB HvR HvC HvB) as Hp.
  exists g1. split; [done|]. split; [done|]. cbn zeta.
  unfold assign, retract. rewrite Hg1; res_simpl. rewrite Hp; res_simpl.
  split; [done|]. cbn [grid possible].
  rewrite (setitem_undo _ _ _ _ _ Hc Hg1); res_simpl.
  rewrite (unplace_after_place _ _ _ _ _ Hp); res_simpl. by destruct st.
Qed.

(** ** Boards, units and what the sets are supposed to hold *)

Lemma elem_of_range n i : i ∈ range n ↔ (i < n)%nat.
Proof. unfold range. rewrite elem_of_seq. lia. Qed.

Lemma elem_of_product2 n (p : Pos) : p ∈ product2 n ↔ (p.1 < n ∧ p.2 < n)%nat.
Proof.
  unfold product2. rewrite list_elem_of_bind. destruct p as [r c]; simpl. split.
  - intros (i & Hc & Hi). apply list_elem_of_fmap in Hc as (j & [= -> ->] & Hj).
    by rewrite elem_of_range in Hi, Hj.
  - intros [Hr Hc]. exists r. rewrite list_elem_of_fmap, elem_of_range.
    split; [|done]. exists c. by rewrite elem_of_range.
Qed.

Lemma elem_of_row_cells r (p : Pos) : p ∈ row_cells r ↔ p.1 = r ∧ (p.2 < 9)%nat.
Proof.
  unfold row_cells. rewrite list_elem_of_fmap. destruct p as [r' c']; simpl. split.
  - intros (c & [= -> ->] & Hc). by rewrite elem_of_range in Hc.
  - intros [-> Hc]. exists c'. by rewrite elem_of_range.
Qed.

Lemma elem_of_col_cells c (p : Pos) : p ∈ col_cells c ↔ (p.1 < 9)%nat ∧ p.2 = c.
Proof.
  unfold col_cells. rewrite list_elem_of_fmap. destruct p as [r' c']; simpl. split.
  - intros (r & [= -> ->] & Hr). by rewrite elem_of_range in Hr.
  - intros [Hr ->]. exists r'. by rewrite elem_of_range.
Qed.

Lemma elem_of_box_cells b (p : Pos) :
  (b < 9)%nat →
  p ∈ box_cells b ↔ (p.1 < 9)%nat ∧ (p.2 < 9)%nat ∧ box_index p.1 p.2 = b.
Proof.
  intros Hb. unfold box_cells, box_index. rewrite list_elem_of_fmap.
  destruct p as [r c]; cbn [fst snd]. split.
  - intros ([i j] & Heq & [Hi Hj]%elem_of_product2).
    cbn beta iota in Heq. cbn [fst snd] in Hi, Hj.
    assert (r = (b / 3 * 3 + i)%nat ∧ c = (b mod 3 * 3 + j)%nat) as [-> ->]
      by (split; congruence).
    lia.
  - intros (Hr & Hc & <-). exists (r mod 3, c mod 3)%nat.
    rewrite elem_of_product2; cbn [fst snd]. split; [f_equal|]; lia.
Qed.

Lemma box_index_lt r c : (r < 9)%nat → (c < 9)%nat → (box_index r c < 9)%nat.
Proof. unfold box_index. lia. Qed.

(** ** Well-shaped boards *)

Lemma elem_of_all_numbers v : v ∈ all_numbers ↔ 1 ≤ v ≤ 9.
Proof.
  unfold all_numbers. rewrite elem_of_list_to_set, list_elem_of_fmap. split.
  - intros (n & -> & Hn%elem_of_seq). lia.
  - intros Hv. exists (Z.to_nat v). rewrite elem_of_seq. lia.
Qed.

Lemma shape9_row g r row : shape9 g → g !! r = Some row → length row = 9%nat.
Proof.
  intros [_ Hrows] Hr. rewrite Forall_forall in Hrows.
  apply Hrows. by eapply list_elem_of_lookup_2.
Qed.

Lemma shape9_cell g p :
  shape9 g → (p.1 < 9)%nat → (p.2 < 9)%nat → cell g p = Some (value g p).
Proof.
  intros Hg Hr Hc. unfold value, cell.
  destruct (lookup_lt_is_Some_2 g p.1) as [row Hrow]; [destruct Hg; lia|].
  rewrite Hrow; simpl.
  destruct (lookup_lt_is_Some_2 row p.2) as [v Hv];
    [rewrite (shape9_row g p.1 row); done|].
  by rewrite Hv.
Qed.

Lemma cell_in_range g p v :
  shape9 g → cell g p = Some v → (p.1 < 9)%nat ∧ (p.2 < 9)%nat.
Proof.
  intros Hg. unfold cell. destruct (g !! p.1) as [row|] eqn:Hrow; simpl; [|done].
  intros Hv%lookup_lt_Some. rewrite (shape9_row g p.1 row) in Hv by done.
  apply lookup_lt_Some in Hrow. destruct Hg as [Hlen _]. lia.
Qed.

Lemma cell_value g p v : cell g p = Some v → value g p = v.
Proof. unfold value. by intros ->. Qed.

Lemma getitem_shape9 g r c :
  shape9 g → (r < 9)%nat → (c < 9)%nat → getitem g r c = Ok (value g (r, c)).
Proof. intros. apply getitem_Ok. by apply shape9_cell. Qed.

Lemma shape9_row_values g r row :
  shape9 g → g !! r = Some row → row = value g <$> row_cells r.
Proof.
  intros Hg Hr. pose proof (shape9_row _ _ _ Hg Hr) as Hlen.
  unfold row_cells, range. rewrite <-list_fmap_compose.
  apply list_eq. intros c. rewrite list_lookup_fmap.
  destruct (decide (c < 9)%nat) as [Hc|Hc].
  - rewrite lookup_seq_lt by done. simpl. unfold value, cell; simpl.
    rewrite Hr; simpl.
    destruct (lookup_lt_is_Some_2 row c) as [v Hv]; [lia|]. by rewrite Hv.
  - rewrite lookup_seq_ge by lia. apply lookup_ge_None. lia.
Qed.

(** Writing into a cell that exists keeps the shape. *)
Lemma setitem_shape9 g r c v g' : setitem g r c v = Ok g' → shape9 g → shape9 g'.
Proof.
  unfold setitem, index. destruct (g !! r) as [row|] eqn:Hr; simpl; [|done].
  destruct (decide _); [|done]. intros [= <-] [Hlen Hrows]. split.
  - by rewrite length_insert.
  - apply Forall_insert; [done|]. rewrite length_insert.
    rewrite Forall_forall in Hrows. apply Hrows. by eapply list_elem_of_lookup_2.
Qed.

(** ** Loops that raise nothing *)

Lemma comprehension_Ok {A B} (f : A → res B) (h : A → B) l :
  (∀ x, x ∈ l → f x = Ok (h x)) → comprehension f l = Ok (h <$> l).
Proof.
  induction l as [|x l IH]; intros Hf; simpl; [done|].
  rewrite Hf by left. simpl. rewrite IH; [done|].
  intros y Hy. apply Hf. by right.
Qed.

Lemma for_acc_Ok {A S} (body : S → A → res S) (step : S → A → S) l acc :
  (∀ a x, x ∈ l → body a x = Ok (step a x)) →
  for_acc body acc l = Ok (foldl step acc l).
Proof.
  revert acc. induction l as [|x l IH]; intros acc Hb; simpl; [done|].
  rewrite Hb by left. simpl. apply IH. intros a y Hy. apply Hb. by right.
Qed.

Lemma for_return_Ok {A} (body : A → res bool) (h : A → bool) l :
  (∀ x, x ∈ l → body x = Ok (h x)) → for_return body l = Ok (existsb h l).
Proof.
  induction l as [|x l IH]; intros Hb; simpl; [done|].
  rewrite Hb by left. simpl. destruct (h x); [done|].
  apply IH. intros y Hy. apply Hb. by right.
Qed.

Lemma foldl_snoc {A B} (h : A → B) l acc :
  foldl (λ bs x, bs ++ [h x]) acc l = acc ++ (h <$> l).
Proof.
  revert acc. induction l as [|x l IH]; intros acc; simpl.
  - by rewrite app_nil_r.
  - by rewrite IH, <-app_assoc.
Qed.

Lemma foldl_add {A} (h : A → Z) l (acc : gset Z) :
  foldl (λ s x, s ∪ {[h x]}) acc l = acc ∪ list_to_set (h <$> l).
Proof.
  revert acc. induction l as [|x l IH]; intros acc; simpl.
  - set_solver.
  - rewrite IH. set_solver.
Qed.

Lemma foldl_append_if {A} (h : A → Z) l acc :
  foldl (λ ns x, if decide (h x ≠ 0) then ns ++ [h x] else ns) acc l
  = acc ++ filter nonzero (h <$> l).
Proof.
  revert acc. induction l as [|x l IH]; intros acc; simpl.
  - by rewrite app_nil_r.
  - rewrite IH. rewrite filter_cons. unfold nonzero at 2.
    destruct (decide (h x ≠ 0)); [|done]. by rewrite <-app_assoc.
Qed.

(** ** [get_possible_numbers] computes the missing digits of every unit *)

Lemma range_fmap_lookup {A} (f : nat → A) n i :
  (i < n)%nat → (f <$> range n) !! i = Some (f i).
Proof. intros Hi. unfold range. by rewrite list_lookup_fmap, lookup_seq_lt. Qed.

Lemma get_possible_numbers_shape9 g :
  shape9 g →
  get_possible_numbers g =
    Ok (mkPossible ((λ r, missing g (row_cells r)) <$> range 9)
                   ((λ c, missing g (col_cells c)) <$> range 9)
                   ((λ b, missing g (box_cells b)) <$> range 9)).
Proof.
  intros Hg. unfold get_possible_numbers.
  rewrite (comprehension_Ok _ (λ c, missing g (col_cells c))); res_simpl.
  2:{ intros j Hj%elem_of_range. cbn beta.
      rewrite (comprehension_Ok _ (λ i, value g (i, j))); res_simpl.
      - unfold missing, col_cells. by rewrite <-list_fmap_compose.
      - intros i Hi%elem_of_range. by apply getitem_shape9. }
  rewrite (for_acc_Ok _ (λ bs x, bs ++
    [(λ '(br, bc), missing g ((λ '(i, j), (br * 3 + i, bc * 3 + j)%nat) <$> product2 3)) x])).
  2:{ intros bs [br bc] [Hbr Hbc]%elem_of_product2. cbn beta iota.
      rewrite (for_acc_Ok _ (λ s x, s ∪
        {[(λ '(i, j), value g (br * 3 + i, bc * 3 + j)%nat) x]})); res_simpl.
      - rewrite foldl_add, (left_id_L ∅ (∪)). unfold missing.
        rewrite <-list_fmap_compose. do 5 f_equal.
      - intros s [i j] [Hi Hj]%elem_of_product2. cbn [fst snd] in *.
        rewrite getitem_shape9 by (done || lia). done. }
  rewrite foldl_snoc. res_simpl. rewrite app_nil_l.
  assert (((λ row, all_numbers ∖ list_to_set row) <$> g)
          = (λ r, missing g (row_cells r)) <$> range 9) as ->.
  { destruct Hg as [Hlen Hrows]. apply list_eq. intros r.
    rewrite !list_lookup_fmap. destruct (g !! r) as [row|] eqn:Hr; simpl.
    - apply lookup_lt_Some in Hr as Hlt. unfold range.
      rewrite lookup_seq_lt by lia. simpl. unfold missing.
      by rewrite <-(shape9_row_values g r row).
    - apply lookup_ge_None in Hr. unfold range. by rewrite lookup_seq_ge by lia. }
  (* the nine boxes come out in the order of their numbers *)
  reflexivity.
Qed.

Lemma elem_of_missing g cells v :
  shape9 g → (∀ p, p ∈ cells → (p.1 < 9)%nat ∧ (p.2 < 9)%nat) →
  v ∈ missing g cells ↔ 1 ≤ v ≤ 9 ∧ ∀ p, p ∈ cells → cell g p ≠ Some v.
Proof.
  intros Hg Hcells. unfold missing.
  rewrite elem_of_difference, elem_of_all_numbers, elem_of_list_to_set,
    list_elem_of_fmap.
  split; intros [Hv Hn]; (split; [done|]).
  - intros p Hp Hc. apply Hn. exists p. by rewrite (cell_value _ _ _ Hc).
  - intros (p & -> & Hp). apply (Hn p Hp).
    apply shape9_cell; [done|by apply Hcells..].
Qed.

Lemma tracks_missing g unit :
  shape9 g →
  (∀ i p, (i < 9)%nat → p ∈ unit i → (p.1 < 9)%nat ∧ (p.2 < 9)%nat) →
  tracks g unit ((λ i, missing g (unit i)) <$> range 9).
Proof.
  intros Hg Hunit. split; [done|]. intros i s Hs v.
  apply lookup_lt_Some in Hs as Hi. rewrite length_fmap in Hi.
  unfold range in Hi. rewrite length_seq in Hi.
  rewrite range_fmap_lookup in Hs by done. injection Hs as <-.
  apply elem_of_missing; [done|]. intros p. by apply Hunit.
Qed.

Lemma get_possible_numbers_consistent g :
  shape9 g → ∃ p, get_possible_numbers g = Ok p ∧ consistent_state (mkState g p).
Proof.
  intros Hg. eexists. split; [by apply get_possible_numbers_shape9|].
  split; [done|]. simpl. split_and!; apply tracks_missing; try done.
  - intros i p Hi [-> ?]%elem_of_row_cells. done.
  - intros i p Hi [? ->]%elem_of_col_cells. done.
  - intros i p Hi (? & ? & _)%elem_of_box_cells; done.
Qed.

(** ** [is_valid_initial_sudoku] looks for a repeated digit *)

Lemma size_list_to_set_le (l : list Z) : (size (list_to_set l : gset Z) ≤ length l)%nat.
Proof.
  induction l as [|x l IH]; [by rewrite list_to_set_nil, size_empty|].
  rewrite list_to_set_cons, length_cons.
  destruct (decide (x ∈ (list_to_set l : gset Z))) as [Hx|Hx].
  - rewrite (subseteq_union_1_L {[x]} (list_to_set l)) by set_solver. lia.
  - rewrite size_union by set_solver. rewrite size_singleton. lia.
Qed.

Lemma has_duplicates_false l : has_duplicates l = false ↔ NoDup l.
Proof.
  unfold has_duplicates. rewrite negb_false_iff, Nat.eqb_eq. split.
  - induction l as [|x l IH]; [constructor|].
    rewrite list_to_set_cons, length_cons. intros Hlen.
    pose proof (size_list_to_set_le l) as Hle.
    destruct (decide (x ∈ (list_to_set l : gset Z))) as [Hx|Hx].
    + rewrite (subseteq_union_1_L {[x]} (list_to_set l)) in Hlen by set_solver. lia.
    + rewrite size_union, size_singleton in Hlen by set_solver.
      constructor; [by rewrite elem_of_list_to_set in Hx|]. apply IH. lia.
  - intros Hnd. by rewrite size_list_to_set.
Qed.

(** The non-zero values on distinct cells form a duplicate-free list
    exactly when no two of the cells hold the same non-zero digit. *)
Lemma NoDup_nonzero_values g cells :
  NoDup cells →
  NoDup (filter nonzero (value g <$> cells)) ↔
  ∀ p q, p ∈ cells → q ∈ cells → value g p = value g q → value g p ≠ 0 → p = q.
Proof.
  induction 1 as [|p cells Hp Hnd IH]; simpl.
  { split; [|constructor]. intros _ p q Hp. by apply elem_of_nil in Hp. }
  rewrite filter_cons. unfold nonzero at 1.
  destruct (decide (value g p ≠ 0)) as [Hnz|Hz].
  - rewrite NoDup_cons, IH, list_elem_of_filter, list_elem_of_fmap. split.
    + intros [Hfresh Hd] a b [->|Ha]%elem_of_cons [->|Hb]%elem_of_cons Hab Ha0;
        [done| | |by apply Hd].
      * destruct Hfresh. split; [done|]. by exists b.
      * destruct Hfresh. split; [done|]. by exists a.
    + intros Hd. split.
      * intros [_ (q & Hq & Hin)]. destruct Hp.
        rewrite (Hd p q); [done|left|by right|done..].
      * intros a b Ha Hb. apply Hd; by right.
  - rewrite IH. apply dec_stable in Hz. split.
    + intros Hd a b [->|Ha]%elem_of_cons [->|Hb]%elem_of_cons Hab Ha0;
        [done|congruence|congruence|by apply Hd].
    + intros Hd a b Ha Hb. apply Hd; by right.
Qed.

Lemma distinct_on_values g cells :
  shape9 g → (∀ p, p ∈ cells → (p.1 < 9)%nat ∧ (p.2 < 9)%nat) →
  distinct_on g cells ↔
  ∀ p q, p ∈ cells → q ∈ cells → value g p = value g q → value g p ≠ 0 → p = q.
Proof.
  intros Hg Hin. split.
  - intros Hd p q Hp Hq Heq Hnz. apply (Hd p q (value g p)); try done.
    + apply shape9_cell; [done|by apply Hin..].
    + rewrite Heq. apply shape9_cell; [done|by apply Hin..].
  - intros Hd p q v Hp Hq Hvp%cell_value Hvq%cell_value Hv.
    apply Hd; congruence.
Qed.

Lemma NoDup_product2 n : NoDup (product2 n).
Proof.
  unfold product2, range. apply NoDup_bind.
  - intros i j p _ _ (? & -> & _)%list_elem_of_fmap (? & [= -> _] & _)%list_elem_of_fmap.
    done.
  - intros i _. apply NoDup_fmap_2_strong; [|apply NoDup_seq]. by intros ?? _ _ [= ->].
  - apply NoDup_seq.
Qed.

Lemma NoDup_row_cells r : NoDup (row_cells r).
Proof. apply NoDup_fmap_2_strong; [|apply NoDup_seq]. by intros ?? _ _ [= ->]. Qed.

Lemma NoDup_col_cells c : NoDup (col_cells c).
Proof. apply NoDup_fmap_2_strong; [|apply NoDup_seq]. by intros ?? _ _ [= ->]. Qed.

Lemma NoDup_box_cells b : NoDup (box_cells b).
Proof.
  apply NoDup_fmap_2_strong; [|apply NoDup_product2].
  intros [i j] [i' j'] _ _ Heq.
  assert ((b / 3 * 3 + i = b / 3 * 3 + i')%nat ∧ (b mod 3 * 3 + j = b mod 3 * 3 + j')%nat)
    as [??] by (split; congruence).
  f_equal; lia.
Qed.

Lemma existsb_false {A} (h : A → bool) l :
  existsb h l = false ↔ ∀ x, x ∈ l → h x = false.
Proof.
  induction l as [|x l IH]; simpl.
  - split; [|done]. intros _ x Hx. by apply elem_of_nil in Hx.
  - rewrite orb_false_iff, IH. split.
    + intros [Hx Hl] y [->|Hy]%elem_of_cons; [done|by apply Hl].
    + intros Hl. split; [apply Hl; left|]. intros y Hy. apply Hl. by right.
Qed.

(** ** The effect of one placement *)

Lemma repeats_false g cells :
  shape9 g → NoDup cells → (∀ p, p ∈ cells → (p.1 < 9)%nat ∧ (p.2 < 9)%nat) →
  repeats g cells = false ↔ distinct_on g cells.
Proof.
  intros Hg Hnd Hin. unfold repeats.
  by rewrite has_duplicates_false, NoDup_nonzero_values, distinct_on_values.
Qed.

Lemma is_valid_initial_sudoku_shape9 g :
  shape9 g →
  is_valid_initial_sudoku g =
    Ok (negb (existsb (λ r, repeats g (row_cells r)) (range 9)
              || existsb (λ c, repeats g (col_cells c)) (range 9)
              || existsb (λ b, repeats g (box_cells b)) (range 9))).
Proof.
  intros Hg. unfold is_valid_initial_sudoku.
  rewrite (for_return_Ok (row_check g) (λ r, repeats g (row_cells r))); res_simpl.
  2:{ intros r Hr%elem_of_range. unfold row_check.
      destruct (lookup_lt_is_Some_2 g r) as [row Hrow]; [destruct Hg; lia|].
      rewrite (proj2 (index_Ok _ _ _) Hrow); res_simpl.
      by rewrite (shape9_row_values g r row). }
  destruct (existsb (λ r, repeats g (row_cells r)) (range 9)); [done|].
  rewrite (for_return_Ok (col_check g) (λ c, repeats g (col_cells c))); res_simpl.
  2:{ intros j Hj%elem_of_range. unfold col_check.
      rewrite (comprehension_Ok _ (λ i, value g (i, j))); res_simpl.
      - unfold repeats, col_cells. by rewrite <-list_fmap_compose.
      - intros i Hi%elem_of_range. by apply getitem_shape9. }
  destruct (existsb (λ c, repeats g (col_cells c)) (range 9)); [done|].
  rewrite (for_return_Ok (box_check g) (λ '(br, bc),
    repeats g ((λ '(i, j), (br * 3 + i, bc * 3 + j)%nat) <$> product2 3))); res_simpl.
  2:{ intros [br bc] [Hbr Hbc]%elem_of_product2. unfold box_check.
      rewrite (for_acc_Ok _ (λ ns x,
        let n := (λ '(i, j), value g (br * 3 + i, bc * 3 + j)%nat) x in
        if decide (n ≠ 0) then ns ++ [n] else ns)); res_simpl.
      - cbn zeta. rewrite foldl_append_if, app_nil_l. unfold repeats.
        by rewrite <-list_fmap_compose.
      - intros ns [i j] [Hi Hj]%elem_of_product2. cbn [fst snd] in *.
        rewrite getitem_shape9 by (done || lia). done. }
  (* the nine boxes are visited in the order of their numbers *)
  change (existsb _ (product2 3))
    with (existsb (λ b, repeats g (box_cells b)) (range 9)).
  by destruct (existsb _ _).
Qed.

(** On a well-shaped board the check answers, and it answers [True]
    exactly when no unit repeats a non-zero digit. *)
Lemma is_valid_initial_sudoku_spec g :
  shape9 g →
  ∃ b, is_valid_initial_sudoku g = Ok b ∧ (b = true ↔ no_duplicates g).
Proof.
  intros Hg. eexists. split; [by apply is_valid_initial_sudoku_shape9|].
  rewrite negb_true_iff, !orb_false_iff, !existsb_false. unfold no_duplicates.
  assert (∀ i, (i < 9)%nat →
    (repeats g (row_cells i) = false ↔ distinct_on g (row_cells i)) ∧
    (repeats g (col_cells i) = false ↔ distinct_on g (col_cells i)) ∧
    (repeats g (box_cells i) = false ↔ distinct_on g (box_cells i))) as Hunits.
  { intros i Hi. split_and!; apply repeats_false; try done.
    - apply NoDup_row_cells.
    - by intros p [-> ?]%elem_of_row_cells.
    - apply NoDup_col_cells.
    - by intros p [? ->]%elem_of_col_cells.
    - apply NoDup_box_cells.
    - by intros p (? & ? & _)%elem_of_box_cells. }
  split.
  - intros [[Hr Hc] Hb] i Hi. destruct (Hunits i Hi) as (H1 & H2 & H3).
    apply elem_of_range in Hi. split_and!; [apply H1|apply H2|apply H3]; auto.
  - intros Hnd. split_and!; intros i Hi%elem_of_range;
      destruct (Hunits i Hi) as (H1 & H2 & H3), (Hnd i Hi) as (? & ? & ?);
      [by apply H1|by apply H2|by apply H3].
Qed.

Lemma written_other g g1 pos num p : written g g1 pos num → p ≠ pos → cell g1 p = cell g p.
Proof. intros Hw Hne. by rewrite Hw, decide_False. Qed.

Lemma written_same g g1 pos num : written g g1 pos num → cell g1 pos = Some num.
Proof. intros Hw. by rewrite Hw, decide_True. Qed.

Lemma tracks_place g g1 unit sets k s pos num :
  tracks g unit sets → sets !! k = Some s →
  pos ∈ unit k → (∀ i, (i < 9)%nat → pos ∈ unit i → i = k) →
  cell g pos = Some 0 → written g g1 pos num →
  tracks g1 unit (<[k := s ∖ {[num]}]> sets).
Proof.
  intros [Hlen Htr] Hk Hpos Honly Hzero Hw. split; [by rewrite length_insert|].
  intros i s' Hi v. apply lookup_lt_Some in Hi as Hlt. rewrite length_insert in Hlt.
  destruct (decide (i = k)) as [->|Hne].
  - rewrite list_lookup_insert_eq in Hi by lia. injection Hi as <-.
    rewrite elem_of_difference, elem_of_singleton, (Htr k s Hk). split.
    + intros [[Hv Hfree] Hnum]. split; [done|]. intros p Hp.
      destruct (decide (p = pos)) as [->|Hp'].
      * rewrite (written_same _ _ _ _ Hw). congruence.
      * rewrite (written_other _ _ _ _ _ Hw Hp'). by apply Hfree.
    + intros [Hv Hfree]. split; [split; [done|]|].
      * intros p Hp. destruct (decide (p = pos)) as [->|Hp'].
        -- rewrite Hzero. intros [= <-]. lia.
        -- rewrite <-(written_other _ _ _ _ _ Hw Hp'). by apply Hfree.
      * intros ->. by apply (Hfree pos Hpos), (written_same g).
  - rewrite list_lookup_insert_ne in Hi by done. rewrite (Htr i s' Hi).
    assert (∀ p, p ∈ unit i → cell g1 p = cell g p) as Hsame.
    { intros p Hp. apply (written_other _ _ _ _ _ Hw). intros ->.
      apply Hne, Honly; [lia|done]. }
    split; intros [Hv Hfree]; (split; [done|]); intros p Hp.
    + rewrite Hsame by done. by apply Hfree.
    + rewrite <-Hsame by done. by apply Hfree.
Qed.

Lemma distinct_on_place g g1 cells pos num :
  distinct_on g cells →
  (pos ∈ cells → ∀ p, p ∈ cells → cell g p ≠ Some num) →
  written g g1 pos num → distinct_on g1 cells.
Proof.
  intros Hd Hfree Hw p q v Hp Hq Hvp Hvq Hv.
  destruct (decide (p = pos)) as [->|Hp'], (decide (q = pos)) as [->|Hq']; [done|..].
  - rewrite (written_same _ _ _ _ Hw) in Hvp. injection Hvp as ->.
    rewrite (written_other _ _ _ _ _ Hw Hq') in Hvq. by destruct (Hfree Hp q Hq).
  - rewrite (written_same _ _ _ _ Hw) in Hvq. injection Hvq as ->.
    rewrite (written_other _ _ _ _ _ Hw Hp') in Hvp. by destruct (Hfree Hq p Hp).
  - rewrite (written_other _ _ _ _ _ Hw Hp') in Hvp.
    rewrite (written_other _ _ _ _ _ Hw Hq') in Hvq. by apply (Hd p q v).
Qed.

Lemma cells09_place g g1 pos num :
  cells09 g → 0 ≤ num ≤ 9 → written g g1 pos num → cells09 g1.
Proof.
  intros Hd Hnum Hw p v. rewrite Hw. case_decide; [by intros [= <-]|apply Hd].
Qed.

Lemma filter_length_le {A} (P Q : A → Prop)
    `{!∀ x, Decision (P x)} `{!∀ x, Decision (Q x)} (l : list A) :
  (∀ x, x ∈ l → Q x → P x) → (length (filter Q l) ≤ length (filter P l))%nat.
Proof.
  induction l as [|x l IH]; intros HQP; [done|].
  rewrite !filter_cons.
  assert (length (filter Q l) ≤ length (filter P l))%nat
    by (apply IH; intros y Hy; apply HQP; by right).
  destruct (decide (Q x)) as [HQ|]; destruct (decide (P x)) as [|HP]; simpl; try lia.
  destruct HP. apply HQP; [left|done].
Qed.

Lemma filter_length_lt {A} (P Q : A → Prop)
    `{!∀ x, Decision (P x)} `{!∀ x, Decision (Q x)} (l : list A) x0 :
  (∀ x, x ∈ l → Q x → P x) → x0 ∈ l → P x0 → ¬ Q x0 →
  (length (filter Q l) < length (filter P l))%nat.
Proof.
  induction l as [|x l IH]; intros HQP Hin HP HQ; [by apply elem_of_nil in Hin|].
  rewrite !filter_cons.
  assert (∀ y, y ∈ l → Q y → P y) as HQP' by (intros y Hy; apply HQP; by right).
  pose proof (filter_length_le P Q l HQP').
  apply elem_of_cons in Hin as [<-|Hin].
  - rewrite decide_False, decide_True by done. simpl. lia.
  - specialize (IH HQP' Hin HP HQ).
    destruct (decide (Q x)) as [HQx|]; destruct (decide (P x)) as [|HPx]; simpl; try lia.
    destruct HPx. apply HQP; [left|done].
Qed.

Lemma empties_place g g1 pos num :
  pos ∈ product2 9 → cell g pos = Some 0 → num ≠ 0 → written g g1 pos num →
  (empties g1 < empties g)%nat.
Proof.
  intros Hpos Hzero Hnum Hw. unfold empties.
  apply (filter_length_lt _ _ _ pos); [|done..|].
  - intros p _. rewrite Hw. case_decide; [|done]. by intros [= ->].
  - rewrite (written_same _ _ _ _ Hw). by intros [= ->].
Qed.

Lemma empties_le g : (empties g ≤ 81)%nat.
Proof. unfold empties. by etrans; [apply length_filter|]. Qed.

Lemma tracks_lookup g unit sets i :
  tracks g unit sets → (i < 9)%nat → ∃ s, sets !! i = Some s.
Proof. intros [Hlen _] Hi. apply lookup_lt_is_Some_2. lia. Qed.

Lemma tracks_free g unit sets i s v p :
  tracks g unit sets → sets !! i = Some s → v ∈ s → p ∈ unit i → cell g p ≠ Some v.
Proof. intros [_ Htr] Hs Hv Hp. apply (Htr i s Hs v) in Hv as [_ Hfree]. by apply Hfree. Qed.

Lemma tracks_digit g unit sets i s v :
  tracks g unit sets → sets !! i = Some s → v ∈ s → 1 ≤ v ≤ 9.
Proof. intros [_ Htr] Hs Hv. by apply (Htr i s Hs v) in Hv as [? _]. Qed.

(** The state after writing a candidate into an empty cell. *)
Lemma assign_consistent st row col R C B num g1 :
  consistent_state st →
  cell (grid st) (row, col) = Some 0 →
  rows_possible (possible st) !! row = Some R →
  cols_possible (possible st) !! col = Some C →
  boxes_possible (possible st) !! box_index row col = Some B →
  num ∈ R → num ∈ C → num ∈ B →
  setitem (grid st) row col num = Ok g1 →
  written (grid st) g1 (row, col) num →
  consistent_state (mkState g1
      (mkPossible (<[row := R ∖ {[num]}]> (rows_possible (possible st)))
                  (<[col := C ∖ {[num]}]> (cols_possible (possible st)))
                  (<[box_index row col := B ∖ {[num]}]> (boxes_possible (possible st)))))
  ∧ (cells09 (grid st) → cells09 g1)
  ∧ (no_duplicates (grid st) → no_duplicates g1)
  ∧ (empties g1 < empties (grid st))%nat.
Proof.
  intros (Hg & Hrows & Hcols & Hboxes) Hzero HR HC HB HnR HnC HnB Hset Hw.
  destruct (cell_in_range _ _ _ Hg Hzero) as [Hr Hc]. cbn [fst snd] in Hr, Hc.
  pose proof (box_index_lt _ _ Hr Hc) as Hb.
  pose proof (tracks_digit _ _ _ _ _ _ Hrows HR HnR) as Hnum.
  assert ((row, col) ∈ row_cells row) as Hinr by (by apply elem_of_row_cells).
  assert ((row, col) ∈ col_cells col) as Hinc by (by apply elem_of_col_cells).
  assert ((row, col) ∈ box_cells (box_index row col)) as Hinb
    by (by apply elem_of_box_cells).
  assert (∀ i, (i < 9)%nat → (row, col) ∈ row_cells i → i = row) as Honlyr
    by (by intros i _ [Heq _]%elem_of_row_cells).
  assert (∀ i, (i < 9)%nat → (row, col) ∈ col_cells i → i = col) as Honlyc
    by (by intros i _ [_ Heq]%elem_of_col_cells).
  assert (∀ i, (i < 9)%nat → (row, col) ∈ box_cells i → i = box_index row col)
    as Honlyb by (by intros i Hi (_ & _ & Heq)%elem_of_box_cells).
  split_and!.
  - split; [by eapply setitem_shape9|]. cbn [grid possible rows_possible
      cols_possible boxes_possible].
    split_and!; by eapply tracks_place.
  - intros Hd. eapply cells09_place; [done| |done]. lia.
  - intros Hnd i Hi. destruct (Hnd i Hi) as (Hdr & Hdc & Hdb).
    split_and!; (eapply distinct_on_place; [done| |done]); intros Hin p Hp.
    + rewrite (Honlyr i Hi Hin) in Hp.
      by apply (tracks_free _ _ _ _ _ _ _ Hrows HR).
    + rewrite (Honlyc i Hi Hin) in Hp.
      by apply (tracks_free _ _ _ _ _ _ _ Hcols HC).
    + rewrite (Honlyb i Hi Hin) in Hp.
      by apply (tracks_free _ _ _ _ _ _ _ Hboxes HB).
  - apply (empties_place _ _ (row, col) num); [|done| |done]; [|lia].
    apply elem_of_product2. by split.
Qed.

(** A completion that agrees with a placement completes the new board. *)
Lemma completes_place g g1 sol pos num :
  completes g sol → written g g1 pos num → cell sol pos = Some num →
  completes g1 sol.
Proof.
  intros (Hs & Hext & Hdig & Hnd) Hw Hpos. split_and!; [done| |done..].
  intros p v. rewrite Hw. case_decide as Hp; [|by apply Hext].
  subst p. by intros [= <-].
Qed.

(** What a completion puts into an empty cell is one of its candidates. *)
Lemma completion_candidate st sol row col R C B :
  consistent_state st → completes (grid st) sol →
  cell (grid st) (row, col) = Some 0 →
  rows_possible (possible st) !! row = Some R →
  cols_possible (possible st) !! col = Some C →
  boxes_possible (possible st) !! box_index row col = Some B →
  ∃ v, cell sol (row, col) = Some v ∧ v ∈ R ∧ v ∈ C ∧ v ∈ B.
Proof.
  intros (Hg & [_ Hrows] & [_ Hcols] & [_ Hboxes]) (Hs & Hext & Hdig & Hnd) Hzero HR HC HB.
  destruct (cell_in_range _ _ _ Hg Hzero) as [Hr Hc]. cbn [fst snd] in Hr, Hc.
  pose proof (box_index_lt _ _ Hr Hc) as Hb.
  pose proof (shape9_cell sol (row, col) Hs Hr Hc) as Hv.
  set (v := value sol (row, col)) in *. exists v. split; [done|].
  pose proof (Hdig _ _ Hv) as Hrange.
  assert (∀ cells, distinct_on sol cells → (row, col) ∈ cells →
            ∀ p, p ∈ cells → cell (grid st) p ≠ Some v) as Hfree.
  { intros cells Hd Hin p Hp Hpv.
    assert (p = (row, col)) as ->.
    { apply (Hd p (row, col) v); [done..|by apply Hext; [|lia]|done|lia]. }
    rewrite Hzero in Hpv. injection Hpv as <-. lia. }
  destruct (Hnd row Hr) as (Hdr & _ & _), (Hnd col Hc) as (_ & Hdc & _),
    (Hnd _ Hb) as (_ & _ & Hdb).
  split_and!.
  - apply (Hrows _ _ HR). split; [done|]. apply Hfree; [done|].
    by apply elem_of_row_cells.
  - apply (Hcols _ _ HC). split; [done|]. apply Hfree; [done|].
    by apply elem_of_col_cells.
  - apply (Hboxes _ _ HB). split; [done|]. apply Hfree; [done|].
    by apply elem_of_box_cells.
Qed.

Lemma digits09_cells g : digits09 g → cells09 g.
Proof.
  intros Hd p v. unfold cell.
  destruct (g !! p.1) as [row|] eqn:Hrow; simpl; [|done]. intros Hv.
  pose proof (Forall_lookup_1 _ _ _ _ Hd Hrow) as Hr.
  exact (Forall_lookup_1 _ _ _ _ Hr Hv).
Qed.

(** ** Solved boards *)

(** Nine cells holding pairwise distinct digits 1-9 hold all of them. *)
Lemma exactly_once_unit g cells v :
  shape9 g → NoDup cells → length cells = 9%nat →
  (∀ p, p ∈ cells → (p.1 < 9)%nat ∧ (p.2 < 9)%nat) →
  (∀ p w, cell g p = Some w → 1 ≤ w ≤ 9) →
  distinct_on g cells → 1 ≤ v ≤ 9 → exactly_once g cells v.
Proof.
  intros Hg Hnd Hlen Hin Hdig Hd Hv.
  assert (∀ p, p ∈ cells → cell g p = Some (value g p)) as Hcell.
  { intros p Hp. apply shape9_cell; [done|by apply Hin..]. }
  assert (NoDup (value g <$> cells)) as Hvals.
  { apply NoDup_fmap_2_strong; [|done]. intros p q Hp Hq Heq.
    apply (Hd p q (value g p)); [done..|by apply Hcell| |].
    - rewrite Heq. by apply Hcell.
    - specialize (Hdig p _ (Hcell p Hp)). lia. }
  assert ((value g <$> cells) ≡ₚ (Z.of_nat <$> seq 1 9)) as Hperm.
  { apply submseteq_length_Permutation.
    - apply NoDup_submseteq; [done|]. intros w (p & -> & Hp)%list_elem_of_fmap.
      specialize (Hdig p _ (Hcell p Hp)). apply list_elem_of_fmap.
      exists (Z.to_nat (value g p)). rewrite elem_of_seq. lia.
    - by rewrite !length_fmap, length_seq, Hlen. }
  assert (v ∈ value g <$> cells) as (p & -> & Hp)%list_elem_of_fmap.
  { rewrite Hperm. apply list_elem_of_fmap. exists (Z.to_nat v).
    rewrite elem_of_seq. lia. }
  exists p. split_and!; [done|by apply Hcell|].
  intros q Hq Hqv. apply (Hd q p (value g p)); [done..|by apply Hcell|lia].
Qed.

Lemma completes_solved g sol : completes g sol → solved sol.
Proof.
  intros (Hs & _ & Hdig & Hnd). split.
  - intros p [Hr Hc]%elem_of_product2. exists (value sol p).
    pose proof (shape9_cell sol p Hs Hr Hc) as Hp. split; [done|by eapply Hdig].
  - intros i v Hi Hv. destruct (Hnd i Hi) as (Hdr & Hdc & Hdb).
    split_and!; apply exactly_once_unit; try done.
    + apply NoDup_row_cells.
    + by intros p [-> ?]%elem_of_row_cells.
    + apply NoDup_col_cells.
    + by intros p [? ->]%elem_of_col_cells.
    + apply NoDup_box_cells.
    + by intros p (? & ? & _)%elem_of_box_cells.
Qed.

(** ** The invariant of the possibility state, in the words of the design *)

Lemma consistent_state_invariant st :
  consistent_state st → possibility_invariant st.
Proof.
  intros (Hg & Hrows & Hcols & Hboxes) r c Hr Hc.
  pose proof (box_index_lt _ _ Hr Hc) as Hb.
  destruct (tracks_lookup _ _ _ r Hrows Hr) as [R HR].
  destruct (tracks_lookup _ _ _ c Hcols Hc) as [C HC].
  destruct (tracks_lookup _ _ _ _ Hboxes Hb) as [B HB].
  exists R, C, B, (value (grid st) (r, c)).
  pose proof (shape9_cell (grid st) (r, c) Hg Hr Hc) as Hx.
  assert ((r, c) ∈ row_cells r) as Hinr by (by apply elem_of_row_cells).
  assert ((r, c) ∈ col_cells c) as Hinc by (by apply elem_of_col_cells).
  assert ((r, c) ∈ box_cells (box_index r c)) as Hinb
    by (by apply elem_of_box_cells).
  split_and!; try done.
  - intros _. split_and!; intros Hin.
    + by apply (tracks_free _ _ _ _ _ _ _ Hrows HR Hin Hinr).
    + by apply (tracks_free _ _ _ _ _ _ _ Hcols HC Hin Hinc).
    + by apply (tracks_free _ _ _ _ _ _ _ Hboxes HB Hin Hinb).
  - intros _ v Hv. destruct Hrows as [_ Hrows], Hcols as [_ Hcols],
      Hboxes as [_ Hboxes].
    rewrite (Hrows _ _ HR), (Hcols _ _ HC), (Hboxes _ _ HB). unfold placeable.
    split.
    + intros ([_ H1] & [_ H2] & [_ H3]). split_and!.
      * intros c' Hc'. apply H1. by apply elem_of_row_cells.
      * intros r' Hr'. apply H2. by apply elem_of_col_cells.
      * intros r' c' Hr' Hc' Heq. apply H3. by apply elem_of_box_cells.
    + intros (H1 & H2 & H3). split_and!; try lia.
      * intros [r' c'] [Heq ?]%elem_of_row_cells. cbn [fst snd] in *. subst r'.
        by apply H1.
      * intros [r' c'] [? Heq]%elem_of_col_cells. cbn [fst snd] in *. subst c'.
        by apply H2.
      * intros [r' c'] Hin.
        apply elem_of_box_cells in Hin as (? & ? & Heq); [|done]. by apply H3.
Qed.

(** ** What every call of [backtrack] guarantees, whatever the state *)

Lemma keeps_refl st : keeps st st.
Proof. by intros p v. Qed.

Lemma keeps_written st st1 st2 pos num :
  cell (grid st) pos = Some 0 → written (grid st) (grid st1) pos num →
  keeps st1 st2 → keeps st st2.
Proof.
  intros Hzero Hw Hk p v Hp Hv. apply Hk; [|done].
  rewrite Hw, decide_False; [done|]. intros ->. rewrite Hzero in Hp.
  by injection Hp as <-.
Qed.

Section SearchProofs.

Variable order : State → gset Z → list Z.
Hypothesis order_perm : ∀ st s, order st s ≡ₚ elements s.

Lemma order_elem_of st s x : x ∈ order st s ↔ x ∈ s.
Proof. by rewrite (order_perm st s), elem_of_elements. Qed.

Lemma try_candidates_framed rec row col s nums st :
  (∀ st1, framed st1 (rec st1)) →
  cell (grid st) (row, col) = Some 0 →
  candidates (possible st) row col = Ok s →
  (∀ n, n ∈ nums → n ∈ s) →
  framed st (try_candidates rec row col nums st).
Proof.
  intros Hrec Hcell (R & C & B & HR & HC & HB & ->)%candidates_Ok.
  induction nums as [|num rest IH]; intros Hin.
  { split; [constructor|]. split; [done|apply keeps_refl]. }
  assert (num ∈ R ∧ num ∈ C ∧ num ∈ B) as (? & ? & ?).
  { specialize (Hin num ltac:(left)). set_solver. }
  destruct (assign_candidate st row col R C B num) as (g1 & _ & Hg & Ha & Hr);
    [done..|].
  cbn zeta in Ha, Hr. simpl. rewrite Ha.
  match type of Ha with _ = Ok ?s => set (st1 := s) in * end.
  assert (∀ st2, keeps st1 st2 → keeps st st2) as Hup
    by (intros st2; by apply (keeps_written st st1 st2 (row, col) num)).
  destruct (Hrec st1) as [Htr Hout].
  assert (Forall (keeps st) (st1 :: (rec st1).1)) as Htr1.
  { constructor; [apply Hup, keeps_refl|]. eapply Forall_impl; [done|apply Hup]. }
  destruct (rec st1) as [tr [[] st2| |]]; cbn [fst snd] in *; try done.
  - destruct Hout as [_ Hkeep]. split; [done|]. split; [done|by apply Hup].
  - destruct Hout as [Heq _]. rewrite (Heq eq_refl), Hr.
    specialize (IH (λ n Hn, Hin n (list_elem_of_further _ _ _ Hn))).
    destruct IH as [Htr' Hout'].
    destruct (try_candidates rec row col rest st) as [tr' o]. cbn [fst snd] in *.
    split; [|done]. inversion_clear Htr1.
    constructor; [done|]. apply Forall_app. split; [done|].
    constructor; [apply keeps_refl|done].
Qed.

Lemma scan_framed rec cells st :
  (∀ st1, framed st1 (rec st1)) → framed st (scan order rec cells st).
Proof.
  intros Hrec. induction cells as [|[row col] rest IH]; simpl.
  { split; [constructor|]. split; [done|apply keeps_refl]. }
  rewrite getitem_cell.
  destruct (cell (grid st) (row, col)) as [v|] eqn:Hc; [|by split].
  destruct (decide (v = 0)) as [->|]; [|done].
  destruct (candidates (possible st) row col) as [s|e] eqn:Hs.
  - destruct (decide (s = ∅)).
    { split; [constructor|]. split; [done|apply keeps_refl]. }
    eapply try_candidates_framed; [done..|]. intros x. apply order_elem_of.
  - split; [constructor|]. cbn [snd]. unfold candidates, index in Hs.
    destruct (rows_possible _ !! _); simpl in Hs; [|by injection Hs as <-].
    destruct (cols_possible _ !! _); simpl in Hs; [|by injection Hs as <-].
    destruct (boxes_possible _ !! _); simpl in Hs; [done|by injection Hs as <-].
Qed.

Lemma backtrack_S fuel st :
  backtrack order (S fuel) st = scan order (backtrack order fuel) (product2 9) st.
Proof. reflexivity. Qed.

Lemma backtrack_framed fuel st : framed st (backtrack order fuel st).
Proof.
  revert st. induction fuel as [|fuel IH]; intros st; [by split|].
  rewrite backtrack_S. by apply scan_framed.
Qed.

(** *** Runs from a consistent state *)

Lemma scan_rule (Post : run → Prop) rec cells st :
  (∀ p, p ∈ cells → is_Some (cell (grid st) p)) →
  ((∀ p, p ∈ cells → cell (grid st) p ≠ Some 0) → Post ([], Done true st)) →
  (∀ row col, (row, col) ∈ cells → cell (grid st) (row, col) = Some 0 →
     Post (match candidates (possible st) row col with
           | Raise e => ([], Raised e)
           | Ok cands =>
               if decide (cands = ∅) then ([], Done false st)
               else try_candidates rec row col (order st cands) st
           end)) →
  Post (scan order rec cells st).
Proof.
  intros Hdef Hnone Hfirst. induction cells as [|[row col] rest IH]; simpl.
  - apply Hnone. intros p Hp. by apply elem_of_nil in Hp.
  - rewrite getitem_cell. destruct (Hdef (row, col)) as [v Hv]; [left|].
    rewrite Hv. destruct (decide (v = 0)) as [->|Hv0].
    + apply Hfirst; [left|done].
    + apply IH.
      * intros p Hp. apply Hdef. by right.
      * intros Hall. apply Hnone.
        intros p [->|Hp]%elem_of_cons; [congruence|by apply Hall].
      * intros r c Hin. apply Hfirst. by right.
Qed.

Lemma try_candidates_searched rec row col R C B nums st :
  consistent_state st → cell (grid st) (row, col) = Some 0 →
  rows_possible (possible st) !! row = Some R →
  cols_possible (possible st) !! col = Some C →
  boxes_possible (possible st) !! box_index row col = Some B →
  (∀ n, n ∈ nums → n ∈ R ∧ n ∈ C ∧ n ∈ B) →
  (∀ st1, framed st1 (rec st1)) →
  (∀ st1, consistent_state st1 →
     (empties (grid st1) < empties (grid st))%nat → searched st1 (rec st1)) →
  ∃ tr b st', try_candidates rec row col nums st = (tr, Done b st') ∧
    Forall consistent_state tr ∧ consistent_state st' ∧
    (b = true → full (grid st')) ∧
    (cells09 (grid st) → cells09 (grid st')) ∧
    (no_duplicates (grid st) → no_duplicates (grid st')) ∧
    (b = false → ∀ sol v, completes (grid st) sol →
       cell sol (row, col) = Some v → v ∉ nums).
Proof.
  intros Hst Hzero HR HC HB Hin Hframed Hrec. induction nums as [|num rest IH].
  { exists [], false, st. split_and!; try done.
    intros _ sol v _ _ Hv. by apply elem_of_nil in Hv. }
  destruct (Hin num) as (HnR & HnC & HnB); [left|].
  destruct (assign_candidate st row col R C B num) as (g1 & Hset & Hw & Ha & Hr);
    [done..|].
  cbn zeta in Ha, Hr.
  destruct (assign_consistent st row col R C B num g1)
    as (Hst1 & Hd1 & Hnd1 & Hlt); [done..|].
  simpl. rewrite Ha.
  match type of Ha with _ = Ok ?s => set (st1 := s) in * end.
  destruct (Hrec st1 Hst1 Hlt)
    as (tr & b & st2 & Hrun & Htr & Hst2 & Hfull & Hd2 & Hnd2 & Hnone).
  destruct (Hframed st1) as [_ Hfr].
  rewrite Hrun in Hfr |- *. cbn [snd] in Hfr. destruct b.
  - exists (st1 :: tr), true, st2. split_and!; try done.
    + by constructor.
    + intros. by apply Hd2, Hd1.
    + intros. by apply Hnd2, Hnd1.
  - destruct Hfr as [Heq _]. rewrite (Heq eq_refl), Hr.
    destruct IH as (tr' & b' & st' & Hrun' & Htr' & Hst' & Hfull' & Hd' & Hnd' & Hnone').
    { intros n Hn. apply Hin. by right. }
    rewrite Hrun'. exists (st1 :: tr ++ st :: tr'), b', st'.
    split_and!; try done.
    + constructor; [done|]. apply Forall_app. split; [done|]. by constructor.
    + intros Hb' sol v Hsol Hv [->|Hv']%elem_of_cons.
      * apply (Hnone eq_refl sol). by eapply completes_place.
      * by eapply Hnone'.
Qed.

Lemma backtrack_searched fuel st :
  consistent_state st → (empties (grid st) < fuel)%nat →
  searched st (backtrack order fuel st).
Proof.
  revert st. induction fuel as [|fuel IH]; intros st Hst Hlt; [lia|].
  rewrite backtrack_S. apply scan_rule.
  - intros p [Hr Hc]%elem_of_product2. destruct Hst as [Hg _].
    rewrite shape9_cell by done. by eexists.
  - intros Hall. exists [], true, st. by split_and!.
  - intros row col [Hr Hc]%elem_of_product2 Hzero. cbn [fst snd] in Hr, Hc.
    pose proof Hst as (Hg & Hrows & Hcols & Hboxes).
    destruct (tracks_lookup _ _ _ row Hrows Hr) as [R HR].
    destruct (tracks_lookup _ _ _ col Hcols Hc) as [C HC].
    destruct (tracks_lookup _ _ _ _ Hboxes (box_index_lt _ _ Hr Hc)) as [B HB].
    assert (candidates (possible st) row col = Ok (R ∩ C ∩ B)) as ->.
    { apply candidates_Ok. by exists R, C, B. }
    destruct (decide (R ∩ C ∩ B = ∅)) as [Hempty|Hne].
    + exists [], false, st. split_and!; try done. intros _ sol Hsol.
      destruct (completion_candidate st sol row col R C B)
        as (v & _ & ? & ? & ?); [done..|].
      set_solver.
    + destruct (try_candidates_searched (backtrack order fuel) row col R C B
                  (order st (R ∩ C ∩ B)) st)
        as (tr & b & st' & Hrun & Htr & Hst' & Hfull & Hd & Hnd & Hnone);
        try done.
      * intros n Hn%order_elem_of. set_solver.
      * intros st1. apply backtrack_framed.
      * intros st1 Hst1 Hlt1. apply IH; [done|lia].
      * rewrite Hrun. exists tr, b, st'. split_and!; try done.
        intros Hb sol Hsol.
        destruct (completion_candidate st sol row col R C B)
          as (v & Hv & ? & ? & ?); [done..|].
        apply (Hnone Hb sol v Hsol Hv). apply order_elem_of. set_solver.
Qed.

(** *** [solve_sudoku] *)

Lemma solve_sudoku_Done g fuel tr b st' :
  solve_sudoku order fuel g = (tr, Done b st') →
  ∃ p, get_possible_numbers g = Ok p ∧
       backtrack order fuel (mkState g p) = (tr, Done b st').
Proof.
  unfold solve_sudoku. destruct (get_possible_numbers g) as [p|e]; [|done].
  intros Hrun. by exists p.
Qed.

Lemma solve_sudoku_run g fuel :
  shape9 g → (empties g < fuel)%nat →
  ∃ p tr b st',
    get_possible_numbers g = Ok p ∧
    solve_sudoku order fuel g = (tr, Done b st') ∧
    Forall consistent_state (mkState g p :: tr) ∧ consistent_state st' ∧
    (b = false → ∀ sol, ¬ completes g sol) ∧
    (b = true → cells09 g → no_duplicates g → completes g (grid st')).
Proof.
  intros Hg Hfuel.
  destruct (get_possible_numbers_consistent g Hg) as (p & Hp & Hst).
  destruct (backtrack_searched fuel (mkState g p) Hst Hfuel)
    as (tr & b & st' & Hrun & Htr & Hst' & Hfull & Hd & Hnd & Hnone).
  destruct (backtrack_framed fuel (mkState g p)) as [_ Hfr].
  rewrite Hrun in Hfr. cbn [snd] in Hfr. destruct Hfr as [_ Hkeep].
  exists p, tr, b, st'. unfold solve_sudoku. rewrite Hp.
  split_and!; [done|done|by constructor|done|done|].
  intros Hb Hg09 Hgnd. split_and!; [by destruct Hst'|done| |by apply Hnd].
  intros q v Hq. pose proof (Hd Hg09 q v Hq).
  destruct (cell_in_range _ _ _ (proj1 Hst') Hq).
  assert (v ≠ 0); [|lia]. intros ->.
  by apply (Hfull Hb q); [apply elem_of_product2|].
Qed.

(** *** The statements about [solve_sudoku] and [backtrack] *)

(** C1: on a 9x9 board of integers 0-9 accepted by
    [is_valid_initial_sudoku], [solve_sudoku] returns, and it returns
    [True] exactly when the empty cells can be filled with digits 1-9
    without repeating a digit in a row, column or box (hence [False]
    exactly when they cannot). *)
Theorem solve_sudoku_decides g fuel :
  shape9 g → digits09 g → is_valid_initial_sudoku g = Ok true →
  (empties g < fuel)%nat →
  ∃ tr b st', solve_sudoku order fuel g = (tr, Done b st') ∧
    (b = true ↔ ∃ sol, completes g sol).
Proof.
  intros Hg Hd Hvalid Hfuel.
  destruct (is_valid_initial_sudoku_spec g Hg) as (ok & Hok & Hnd).
  rewrite Hvalid in Hok. injection Hok as <-.
  destruct (solve_sudoku_run g fuel Hg Hfuel)
    as (p & tr & b & st' & _ & Hrun & _ & _ & Hnone & Hsome).
  exists tr, b, st'. split; [done|]. split.
  - intros Hb. exists (grid st'). apply Hsome; [done| |by apply Hnd].
    by apply digits09_cells.
  - intros [sol Hsol]. destruct b; [done|]. by destruct (Hnone eq_refl sol).
Qed.

(** C2: on such a board, when [solve_sudoku] returns [True] the board
    it leaves has a digit 1-9 in every cell, and every row, column and
    box holds each digit 1-9 exactly once. *)
Theorem solve_sudoku_true_solved g fuel tr st' :
  shape9 g → digits09 g → is_valid_initial_sudoku g = Ok true →
  (empties g < fuel)%nat →
  solve_sudoku order fuel g = (tr, Done true st') → solved (grid st').
Proof.
  intros Hg Hd Hvalid Hfuel Hres.
  destruct (is_valid_initial_sudoku_spec g Hg) as (ok & Hok & Hnd).
  rewrite Hvalid in Hok. injection Hok as <-.
  destruct (solve_sudoku_run g fuel Hg Hfuel)
    as (p & tr' & b & st'' & _ & Hrun & _ & _ & _ & Hsome).
  rewrite Hres in Hrun. injection Hrun as <- <- <-.
  apply (completes_solved g). apply Hsome; [done| |by apply Hnd].
  by apply digits09_cells.
Qed.

(** C3: whatever the board, when [solve_sudoku] returns [False] the
    board is cell for cell the one it was given. *)
Theorem solve_sudoku_false_restores g fuel tr st' :
  solve_sudoku order fuel g = (tr, Done false st') → grid st' = g.
Proof.
  intros (p & _ & Hrun)%solve_sudoku_Done.
  destruct (backtrack_framed fuel (mkState g p)) as [_ Hfr].
  rewrite Hrun in Hfr. cbn [snd] in Hfr. destruct Hfr as [Heq _].
  by rewrite (Heq eq_refl).
Qed.

(** C4: whatever the board, a cell that holds a non-zero value when
    [solve_sudoku] is called holds that value when it returns, with
    either result, and after every placement and withdrawal in between:
    only empty cells are written. *)
Theorem solve_sudoku_keeps_filled g fuel tr b st' r c v :
  solve_sudoku order fuel g = (tr, Done b st') →
  cell g (r, c) = Some v → v ≠ 0 →
  cell (grid st') (r, c) = Some v ∧
  Forall (λ st, cell (grid st) (r, c) = Some v) tr.
Proof.
  intros (p & _ & Hrun)%solve_sudoku_Done Hc Hv.
  destruct (backtrack_framed fuel (mkState g p)) as [Htr Hfr].
  rewrite Hrun in Htr, Hfr. cbn [fst snd] in Htr, Hfr.
  destruct Hfr as [_ Hkeep]. split; [by apply Hkeep|].
  eapply Forall_impl; [done|]. intros st Hst. by apply Hst.
Qed.

(** C5: on a 9x9 board, the state built by [get_possible_numbers], the
    state after every placement and after every withdrawal, and the
    final state all satisfy the invariant: the digit of a filled cell is
    absent from the sets of its row, column and box, and for an empty
    cell a digit 1-9 is in all three sets exactly when writing it there
    repeats no digit of the row, the column or the box. *)
Theorem possibility_invariant_throughout g fuel :
  shape9 g → (empties g < fuel)%nat →
  ∃ p tr b st',
    get_possible_numbers g = Ok p ∧
    solve_sudoku order fuel g = (tr, Done b st') ∧
    Forall possibility_invariant (mkState g p :: tr) ∧
    possibility_invariant st'.
Proof.
  intros Hg Hfuel.
  destruct (solve_sudoku_run g fuel Hg Hfuel)
    as (p & tr & b & st' & Hp & Hrun & Htr & Hst' & _).
  exists p, tr, b, st'. split_and!; [done..| |by apply consistent_state_invariant].
  eapply Forall_impl; [done|]. apply consistent_state_invariant.
Qed.

(** C6: on a 9x9 board [solve_sudoku] terminates with a result: the
    depth of the recursion is at most the number of empty cells, which is
    at most 81, so any budget above that number is enough. *)
Theorem solve_sudoku_terminates g :
  shape9 g →
  (empties g ≤ 81)%nat ∧
  ∀ fuel, (empties g < fuel)%nat →
    ∃ tr b st', solve_sudoku order fuel g = (tr, Done b st').
Proof.
  intros Hg. split; [apply empties_le|]. intros fuel Hfuel.
  destruct (solve_sudoku_run g fuel Hg Hfuel)
    as (p & tr & b & st' & _ & Hrun & _).
  by exists tr, b, st'.
Qed.

(** C10: in no call of [backtrack], from whatever state, does a
    [set.remove] fail: the run never ends in [KeyError]. *)
Theorem backtrack_remove_succeeds fuel st :
  (backtrack order fuel st).2 ≠ Raised KeyError.
Proof.
  destruct (backtrack_framed fuel st) as [_ Hfr].
  destruct (backtrack order fuel st) as [tr [b st'|e|]]; cbn [snd] in *;
    [done| |done].
  by rewrite Hfr.
Qed.

End SearchProofs.

(** C7: on a 9x9 board [get_possible_numbers] returns, for every row,
    column and box, exactly the digits 1-9 that do not occur in it; it
    does so whether or not the board repeats a digit. *)
Theorem get_possible_numbers_missing g :
  shape9 g →
  ∃ p, get_possible_numbers g = Ok p ∧
    tracks g row_cells (rows_possible p) ∧
    tracks g col_cells (cols_possible p) ∧
    tracks g box_cells (boxes_possible p).
Proof.
  intros Hg. destruct (get_possible_numbers_consistent g Hg) as (p & Hp & Hst).
  exists p. split; [done|]. by destruct Hst as (_ & ? & ? & ?).
Qed.

(** C8: on a 9x9 board [is_valid_initial_sudoku] returns [True] exactly
    when in every row, column and box the non-zero digits are pairwise
    distinct; zeros never count as repetitions. *)
Theorem is_valid_initial_sudoku_no_duplicates g :
  shape9 g →
  ∃ b, is_valid_initial_sudoku g = Ok b ∧ (b = true ↔ no_duplicates g).
Proof. apply is_valid_initial_sudoku_spec. Qed.

(** C9, as amended: when the digit is a member of the three sets it is
    removed from, [place] succeeds and [unplace] gives back the state
    [place] started from. *)
Theorem unplace_place_member p r c v R C B :
  rows_possible p !! r = Some R → cols_possible p !! c = Some C →
  boxes_possible p !! box_index r c = Some B →
  v ∈ R → v ∈ C → v ∈ B →
  ∃ p', place p r c v = Ok p' ∧ unplace p' r c v = Ok p.
Proof.
  intros HR HC HB HvR HvC HvB.
  pose proof (place_Ok p r c v R C B HR HC HB HvR HvC HvB) as Hp.
  eexists. split; [done|]. by apply unplace_after_place.
Qed.

(** * Further properties *)

(** ** Boards without empty cells *)

Lemma scan_filled order rec cells st :
  (∀ p, p ∈ cells → ∃ v, cell (grid st) p = Some v ∧ v ≠ 0) →
  scan order rec cells st = ([], Done true st).
Proof.
  induction cells as [|[row col] rest IH]; intros Hnz; [done|]. simpl.
  destruct (Hnz (row, col)) as (v & Hv & Hv0); [left|].
  rewrite getitem_cell, Hv, decide_False by done.
  apply IH. intros p Hp. apply Hnz. by right.
Qed.

Lemma try_candidates_true_filled rec row col nums st tr st' :
  (∀ st1 tr1 st1', rec st1 = (tr1, Done true st1') → filled (grid st1')) →
  try_candidates rec row col nums st = (tr, Done true st') → filled (grid st').
Proof.
  intros Hrec. revert st tr. induction nums as [|num rest IH]; intros st tr; [done|].
  simpl. destruct (assign st row col num) as [st1|e]; [|done].
  destruct (rec st1) as [tr1 [[] st2|e|]] eqn:Hrun; try done.
  - intros [= _ <-]. by eapply Hrec.
  - destruct (retract st2 row col num) as [st3|e]; [|done].
    destruct (try_candidates rec row col rest st3) as [tr' o] eqn:Hrest.
    intros [= _ ->]. by eapply IH.
Qed.

Lemma scan_true_filled order rec cells st tr st' :
  (∀ st1 tr1 st1', rec st1 = (tr1, Done true st1') → filled (grid st1')) →
  scan order rec cells st = (tr, Done true st') →
  filled (grid st') ∨
  (st' = st ∧ ∀ p, p ∈ cells → ∃ v, cell (grid st) p = Some v ∧ v ≠ 0).
Proof.
  intros Hrec. induction cells as [|[row col] rest IH]; simpl.
  { intros [= _ <-]. right. split; [done|]. intros p Hp. by apply elem_of_nil in Hp. }
  rewrite getitem_cell. destruct (cell (grid st) (row, col)) as [v|] eqn:Hv; [|done].
  destruct (decide (v = 0)) as [->|Hv0].
  - destruct (candidates (possible st) row col) as [s|e]; [|done].
    destruct (decide (s = ∅)); [done|]. intros Hrun. left.
    by eapply try_candidates_true_filled.
  - intros Hrun. destruct (IH Hrun) as [?|[-> Hrest]]; [by left|right].
    split; [done|]. intros p [->|Hp]%elem_of_cons; [by exists v|by apply Hrest].
Qed.

Lemma backtrack_true_filled order fuel st tr st' :
  backtrack order fuel st = (tr, Done true st') → filled (grid st').
Proof.
  revert st tr st'. induction fuel as [|fuel IH]; intros st tr st'; [done|].
  rewrite backtrack_S. intros Hrun.
  destruct (scan_true_filled order _ _ _ _ _ IH Hrun) as [?|[-> Hall]]; done.
Qed.

(** X1: Whatever the board and the state, [True] is only returned with a
    board whose 81 cells are all non-zero. *)
Theorem solve_sudoku_true_filled order g fuel tr st' :
  solve_sudoku order fuel g = (tr, Done true st') → filled (grid st').
Proof.
  intros (p & _ & Hrun)%solve_sudoku_Done. by eapply backtrack_true_filled.
Qed.

(** X2: A 9x9 board without empty cell is returned as it is, with [True]
    and without any placement, whether or not it repeats digits. *)
Theorem solve_sudoku_full_board order g fuel :
  shape9 g → full g → (0 < fuel)%nat →
  ∃ p, get_possible_numbers g = Ok p ∧
       solve_sudoku order fuel g = ([], Done true (mkState g p)).
Proof.
  intros Hg Hfull Hfuel.
  destruct (get_possible_numbers_consistent g Hg) as (p & Hp & _).
  exists p. split; [done|]. unfold solve_sudoku. rewrite Hp.
  destruct fuel as [|fuel]; [lia|]. rewrite backtrack_S.
  apply scan_filled. intros q Hq. cbn [grid].
  pose proof Hq as [Hr Hc]%elem_of_product2.
  exists (value g q). split; [by apply shape9_cell|].
  intros H0. apply (Hfull q Hq). rewrite shape9_cell by done. by rewrite H0.
Qed.

(** ** Boards that have a completion *)

Lemma completes_sound_board g sol :
  completes g sol → cells09 g ∧ no_duplicates g.
Proof.
  intros (Hs & Hext & Hdig & Hnd). split.
  - intros p v Hp. destruct (decide (v = 0)) as [->|Hv]; [lia|].
    pose proof (Hdig p v (Hext p v Hp Hv)). lia.
  - intros i Hi. destruct (Hnd i Hi) as (Hr & Hc & Hb).
    split_and!; intros p q v Hp Hq Hvp Hvq Hv;
      [apply (Hr p q v)|apply (Hc p q v)|apply (Hb p q v)]; auto.
Qed.

Section Completion.

Variable order : State → gset Z → list Z.
Hypothesis order_perm : ∀ st s, order st s ≡ₚ elements s.

(** X3: As soon as the board has a completion, [solve_sudoku] returns
    [True] and leaves a completion of the board it was given, whatever
    the order in which the candidates are tried; when the completion is
    unique it is the one that is left. *)
Theorem solve_sudoku_finds_completion g fuel sol :
  shape9 g → completes g sol → (empties g < fuel)%nat →
  ∃ tr st', solve_sudoku order fuel g = (tr, Done true st') ∧
    completes g (grid st') ∧
    ((∀ sol', completes g sol' → sol' = sol) → grid st' = sol).
Proof.
  intros Hg Hsol Hfuel.
  destruct (solve_sudoku_run order order_perm g fuel Hg Hfuel)
    as (p & tr & b & st' & _ & Hrun & _ & _ & Hnone & Hsome).
  destruct b; [|by destruct (Hnone eq_refl sol)].
  destruct (completes_sound_board g sol Hsol) as [H09 Hnd].
  exists tr, st'. split; [done|]. pose proof (Hsome eq_refl H09 Hnd) as Hc.
  split; [done|]. intros Huniq. by apply Huniq.
Qed.

End Completion.

(** ** Exceptions of the two checks *)

Lemma only_IndexError_Ok {A} (a : A) : only_IndexError (Ok a).
Proof. by intros e. Qed.

Lemma only_IndexError_index {A} (l : list A) i : only_IndexError (index l i).
Proof. intros e. unfold index. destruct (l !! i); [done|by intros [= <-]]. Qed.

Lemma only_IndexError_bind {A B} (m : res A) (k : A → res B) :
  only_IndexError m → (∀ a, only_IndexError (k a)) → only_IndexError (m ≫= k).
Proof.
  intros Hm Hk e. destruct m as [a|e']; res_simpl; [apply Hk|].
  intros [= <-]. by apply Hm.
Qed.

Lemma only_IndexError_getitem g r c : only_IndexError (getitem g r c).
Proof.
  apply only_IndexError_bind; [apply only_IndexError_index|].
  intros row. apply only_IndexError_index.
Qed.

Lemma only_IndexError_comprehension {A B} (f : A → res B) l :
  (∀ x, only_IndexError (f x)) → only_IndexError (comprehension f l).
Proof.
  intros Hf. induction l as [|x l IH]; simpl; [apply only_IndexError_Ok|].
  apply only_IndexError_bind; [done|]. intros y.
  apply only_IndexError_bind; [done|]. intros ys. apply only_IndexError_Ok.
Qed.

Lemma only_IndexError_for_acc {A S} (body : S → A → res S) acc l :
  (∀ a x, only_IndexError (body a x)) → only_IndexError (for_acc body acc l).
Proof.
  intros Hb. revert acc. induction l as [|x l IH]; intros acc; simpl;
    [apply only_IndexError_Ok|].
  apply only_IndexError_bind; [done|]. intros a. apply IH.
Qed.

Lemma only_IndexError_for_return {A} (body : A → res bool) l :
  (∀ x, only_IndexError (body x)) → only_IndexError (for_return body l).
Proof.
  intros Hb. induction l as [|x l IH]; simpl; [apply only_IndexError_Ok|].
  apply only_IndexError_bind; [done|]. intros []; [apply only_IndexError_Ok|done].
Qed.

Lemma comprehension_Ok_inv {A B} (f : A → res B) l ys :
  comprehension f l = Ok ys → ∀ x, x ∈ l → ∃ y, f x = Ok y.
Proof.
  revert ys. induction l as [|x l IH]; intros ys; simpl.
  { intros _ y Hy. by apply elem_of_nil in Hy. }
  intros (y & Hy & (ys' & Hys & _)%bind_Ok)%bind_Ok z [->|Hz]%elem_of_cons;
    [by exists y|by eapply IH].
Qed.

Lemma for_return_false_inv {A} (body : A → res bool) l :
  for_return body l = Ok false → ∀ x, x ∈ l → body x = Ok false.
Proof.
  induction l as [|x l IH]; simpl.
  { intros _ y Hy. by apply elem_of_nil in Hy. }
  intros (hit & Hhit & Hrest)%bind_Ok. destruct hit; [done|].
  intros z [->|Hz]%elem_of_cons; [done|by apply IH].
Qed.

Lemma getitem_has_9x9 g r c :
  has_9x9 g → (r < 9)%nat → (c < 9)%nat → getitem g r c = Ok (value g (r, c)).
Proof.
  intros Hg Hr Hc. apply getitem_Ok.
  destruct (Hg (r, c)) as [v Hv]; [by apply elem_of_product2|].
  by rewrite (cell_value _ _ _ Hv).
Qed.

Lemma column_read g j col :
  comprehension (λ i, getitem g i j) (range 9) = Ok col → (j < 9)%nat →
  ∀ i, (i < 9)%nat → is_Some (cell g (i, j)).
Proof.
  intros Hcol Hj i Hi.
  destruct (comprehension_Ok_inv _ _ _ Hcol i) as [v Hv]; [by apply elem_of_range|].
  apply getitem_Ok in Hv. by exists v.
Qed.

Lemma get_possible_numbers_has_9x9 g :
  has_9x9 g →
  get_possible_numbers g =
    Ok (mkPossible ((λ row, all_numbers ∖ list_to_set row) <$> g)
                   ((λ c, missing g (col_cells c)) <$> range 9)
                   ((λ b, missing g (box_cells b)) <$> range 9)).
Proof.
  intros Hg. unfold get_possible_numbers.
  rewrite (comprehension_Ok _ (λ c, missing g (col_cells c))); res_simpl.
  2:{ intros j Hj%elem_of_range. cbn beta.
      rewrite (comprehension_Ok _ (λ i, value g (i, j))); res_simpl.
      - unfold missing, col_cells. by rewrite <-list_fmap_compose.
      - intros i Hi%elem_of_range. by apply getitem_has_9x9. }
  rewrite (for_acc_Ok _ (λ bs x, bs ++
    [(λ '(br, bc), missing g ((λ '(i, j), (br * 3 + i, bc * 3 + j)%nat) <$> product2 3)) x])).
  2:{ intros bs [br bc] [Hbr Hbc]%elem_of_product2. cbn beta iota.
      rewrite (for_acc_Ok _ (λ s x, s ∪
        {[(λ '(i, j), value g (br * 3 + i, bc * 3 + j)%nat) x]})); res_simpl.
      - rewrite foldl_add, (left_id_L ∅ (∪)). unfold missing.
        rewrite <-list_fmap_compose. do 5 f_equal.
      - intros s [i j] [Hi Hj]%elem_of_product2. cbn [fst snd] in *.
        rewrite getitem_has_9x9 by (done || lia). done. }
  rewrite foldl_snoc. res_simpl. rewrite app_nil_l. reflexivity.
Qed.

Lemma get_possible_numbers_Ok_has_9x9 g p :
  get_possible_numbers g = Ok p → has_9x9 g.
Proof.
  intros Hp [i j] [Hi Hj]%elem_of_product2. cbn [fst snd] in *.
  unfold get_possible_numbers in Hp.
  apply bind_Ok in Hp as (cols & Hcols & _).
  destruct (comprehension_Ok_inv _ _ _ Hcols j) as [s Hs];
    [by apply elem_of_range|].
  cbn beta in Hs. apply bind_Ok in Hs as (col & Hcol & _).
  by apply (column_read g j col).
Qed.

Lemma get_possible_numbers_only_IndexError g :
  only_IndexError (get_possible_numbers g).
Proof.
  unfold get_possible_numbers.
    apply only_IndexError_bind.
    { apply only_IndexError_comprehension. intros j.
      apply only_IndexError_bind; [|intros; apply only_IndexError_Ok].
      apply only_IndexError_comprehension. intros i. apply only_IndexError_getitem. }
    intros cols. apply only_IndexError_bind; [|intros; apply only_IndexError_Ok].
    apply only_IndexError_for_acc. intros bs [br bc].
    apply only_IndexError_bind; [|intros; apply only_IndexError_Ok].
    apply only_IndexError_for_acc. intros s [i j].
    apply only_IndexError_bind; [apply only_IndexError_getitem|].
    intros; apply only_IndexError_Ok.
Qed.

(** X4: [get_possible_numbers] returns exactly when the 81 cells it reads
    exist, and otherwise raises [IndexError]. *)
Theorem get_possible_numbers_defined g :
  ((∃ p, get_possible_numbers g = Ok p) ↔ has_9x9 g) ∧
  only_IndexError (get_possible_numbers g).
Proof.
  split; [split|].
  - intros [p Hp]. by eapply get_possible_numbers_Ok_has_9x9.
  - intros Hg. eexists. by apply get_possible_numbers_has_9x9.
  - apply get_possible_numbers_only_IndexError.
Qed.

Lemma get_possible_numbers_shape g p :
  get_possible_numbers g = Ok p →
  length (rows_possible p) = length g ∧
  length (cols_possible p) = 9%nat ∧ length (boxes_possible p) = 9%nat ∧
  ∀ s, s ∈ rows_possible p ++ cols_possible p ++ boxes_possible p →
    s ⊆ all_numbers.
Proof.
  intros Hp. assert (has_9x9 g) as Hg
    by (by eapply get_possible_numbers_Ok_has_9x9).
  pose proof (get_possible_numbers_has_9x9 g Hg) as Heq.
  assert (p = mkPossible ((λ row, all_numbers ∖ list_to_set row) <$> g)
                ((λ c, missing g (col_cells c)) <$> range 9)
                ((λ b, missing g (box_cells b)) <$> range 9)) as ->
    by congruence.
  cbn [rows_possible cols_possible boxes_possible].
  rewrite !length_fmap. split_and!; [done..|].
  intros s. rewrite !elem_of_app, !list_elem_of_fmap. unfold missing.
  intros [(? & -> & _)|[(? & -> & _)|(? & -> & _)]]; set_solver.
Qed.

(** X5: The sets [get_possible_numbers] returns hold digits 1-9 only;
    there is one per row of the board, and nine for the columns and for
    the boxes. *)
Theorem get_possible_numbers_sets g p :
  get_possible_numbers g = Ok p →
  length (rows_possible p) = length g ∧
  length (cols_possible p) = 9%nat ∧ length (boxes_possible p) = 9%nat ∧
  ∀ s, s ∈ rows_possible p ++ cols_possible p ++ boxes_possible p →
    s ⊆ all_numbers.
Proof. apply get_possible_numbers_shape. Qed.

(** ** Termination on every board *)

Lemma runnable_assign st row col R C B num g1 :
  runnable st →
  rows_possible (possible st) !! row = Some R →
  cols_possible (possible st) !! col = Some C →
  boxes_possible (possible st) !! box_index row col = Some B →
  num ∈ R →
  written (grid st) g1 (row, col) num →
  runnable (mkState g1
      (mkPossible (<[row := R ∖ {[num]}]> (rows_possible (possible st)))
                  (<[col := C ∖ {[num]}]> (cols_possible (possible st)))
                  (<[box_index row col := B ∖ {[num]}]> (boxes_possible (possible st)))))
  ∧ num ≠ 0.
Proof.
  intros (Hg & Hlr & Hlc & Hlb & Hzr & Hzc & Hzb) HR HC HB HnR Hw.
  pose proof (Forall_lookup_1 _ _ _ _ Hzr HR) as H0R.
  pose proof (Forall_lookup_1 _ _ _ _ Hzc HC) as H0C.
  pose proof (Forall_lookup_1 _ _ _ _ Hzb HB) as H0B.
  cbn beta in H0R, H0C, H0B.
  assert (num ≠ 0) as Hnum by (by intros ->).
  split; [|done]. unfold runnable. cbn [grid possible rows_possible
    cols_possible boxes_possible]. rewrite !length_insert.
  split_and!; try done.
  - intros p Hp. rewrite Hw. case_decide; [done|by apply Hg].
  - apply Forall_insert; [done|]. set_solver.
  - apply Forall_insert; [done|]. set_solver.
  - apply Forall_insert; [done|]. set_solver.
Qed.

Section Budget.

Variable order : State → gset Z → list Z.
Hypothesis order_perm : ∀ st s, order st s ≡ₚ elements s.

Lemma try_candidates_ends rec row col R C B nums st :
  runnable st → (row, col) ∈ product2 9 →
  cell (grid st) (row, col) = Some 0 →
  rows_possible (possible st) !! row = Some R →
  cols_possible (possible st) !! col = Some C →
  boxes_possible (possible st) !! box_index row col = Some B →
  (∀ n, n ∈ nums → n ∈ R ∧ n ∈ C ∧ n ∈ B) →
  (∀ st1, framed st1 (rec st1)) →
  (∀ st1, runnable st1 → (empties (grid st1) < empties (grid st))%nat →
     ∃ tr b st', rec st1 = (tr, Done b st')) →
  ∃ tr b st', try_candidates rec row col nums st = (tr, Done b st').
Proof.
  intros Hst Hpos Hzero HR HC HB Hin Hframed Hrec.
  induction nums as [|num rest IH]; [by eexists _, _, _|].
  destruct (Hin num) as (HnR & HnC & HnB); [left|].
  destruct (assign_candidate st row col R C B num) as (g1 & _ & Hw & Ha & Hr);
    [done..|].
  cbn zeta in Ha, Hr.
  destruct (runnable_assign st row col R C B num g1) as [Hst1 Hnum]; [done..|].
  simpl. rewrite Ha.
  match type of Ha with _ = Ok ?s => set (st1 := s) in * end.
  destruct (Hrec st1 Hst1) as (tr & b & st2 & Hrun).
  { by apply (empties_place _ _ (row, col) num). }
  destruct (Hframed st1) as [_ Hfr]. rewrite Hrun in Hfr |- *. cbn [snd] in Hfr.
  destruct b; [by eexists _, _, _|].
  destruct Hfr as [Heq _]. rewrite (Heq eq_refl), Hr.
  destruct IH as (tr' & b' & st' & ->).
  { intros n Hn. apply Hin. by right. }
  by eexists _, _, _.
Qed.

Lemma scan_ends rec cells st :
  runnable st → (∀ p, p ∈ cells → p ∈ product2 9) →
  (∀ st1, framed st1 (rec st1)) →
  (∀ st1, runnable st1 → (empties (grid st1) < empties (grid st))%nat →
     ∃ tr b st', rec st1 = (tr, Done b st')) →
  ∃ tr b st', scan order rec cells st = (tr, Done b st').
Proof.
  intros Hst Hcells Hframed Hrec.
  induction cells as [|[row col] rest IH]; simpl; [by eexists _, _, _|].
  pose proof (Hcells (row, col) ltac:(left)) as Hpos.
  pose proof Hst as (Hg & Hlr & Hlc & Hlb & _).
  destruct (Hg _ Hpos) as [v Hv]. rewrite getitem_cell, Hv.
  destruct (decide (v = 0)) as [->|Hv0].
  - apply elem_of_product2 in Hpos as Hrc. destruct Hrc as [Hr Hc].
    cbn [fst snd] in Hr, Hc. pose proof (box_index_lt _ _ Hr Hc) as Hb.
    destruct (lookup_lt_is_Some_2 (rows_possible (possible st)) row) as [R HR]; [lia|].
    destruct (lookup_lt_is_Some_2 (cols_possible (possible st)) col) as [C HC]; [lia|].
    destruct (lookup_lt_is_Some_2 (boxes_possible (possible st)) (box_index row col))
      as [B HB]; [lia|].
    assert (candidates (possible st) row col = Ok (R ∩ C ∩ B)) as ->.
    { apply candidates_Ok. by exists R, C, B. }
    destruct (decide (R ∩ C ∩ B = ∅)); [by eexists _, _, _|].
    apply (try_candidates_ends rec row col R C B); try done.
    intros x Hx%(order_elem_of order order_perm). set_solver.
  - apply IH. intros p Hp. apply Hcells. by right.
Qed.

Lemma backtrack_ends fuel st :
  runnable st → (empties (grid st) < fuel)%nat →
  ∃ tr b st', backtrack order fuel st = (tr, Done b st').
Proof.
  revert st. induction fuel as [|fuel IH]; intros st Hst Hfuel; [lia|].
  rewrite backtrack_S. apply scan_ends; [done|done| |].
  - intros st1. by apply backtrack_framed.
  - intros st1 Hst1 Hlt. apply IH; [done|lia].
Qed.

(** X6: On every board, of whatever shape and content, [solve_sudoku]
    ends within a recursion depth of the number of empty cells plus one:
    with a boolean when the 81 cells exist, and with [IndexError], raised
    by [get_possible_numbers] before any cell is written, when they do
    not. *)
Theorem solve_sudoku_ends_on_every_board g fuel :
  (empties g < fuel)%nat →
  (has_9x9 g → ∃ tr b st', solve_sudoku order fuel g = (tr, Done b st')) ∧
  (¬ has_9x9 g → solve_sudoku order fuel g = ([], Raised IndexError)).
Proof.
  intros Hfuel. unfold solve_sudoku. split.
  - intros Hg. rewrite (get_possible_numbers_has_9x9 g Hg).
    apply backtrack_ends; [|done].
    destruct (get_possible_numbers_shape g _ (get_possible_numbers_has_9x9 g Hg))
      as (Hlr & Hlc & Hlb & Hsub).
    assert (∀ l : list (gset Z), (∀ s, s ∈ l → s ⊆ all_numbers) →
              Forall (λ s : gset Z, 0 ∉ s) l) as Hz.
    { intros l Hl. apply Forall_forall. intros s Hs H0.
      apply (Hl s Hs), elem_of_all_numbers in H0. lia. }
    unfold runnable. cbn [grid possible] in *. rewrite Hlr, Hlc, Hlb.
    split_and!; [done| |done|done|..].
    + destruct (Hg (8, 0)%nat) as [v Hv];
        [apply elem_of_product2; cbn [fst snd]; lia|].
      unfold cell in Hv. cbn [fst snd] in Hv.
      destruct (g !! 8%nat) eqn:H8; [|done]. apply lookup_lt_Some in H8. lia.
    + apply Hz. intros s Hs. apply Hsub. rewrite !elem_of_app. auto.
    + apply Hz. intros s Hs. apply Hsub. rewrite !elem_of_app. auto.
    + apply Hz. intros s Hs. apply Hsub. rewrite !elem_of_app. auto.
  - intros Hg. destruct (get_possible_numbers g) as [p|e] eqn:Hp.
    + destruct Hg. by eapply get_possible_numbers_Ok_has_9x9.
    + by rewrite (get_possible_numbers_only_IndexError g e Hp).
Qed.

End Budget.

(** ** What [is_valid_initial_sudoku] reads *)

Lemma for_return_defined {A} (body : A → res bool) l :
  (∀ x, x ∈ l → ∃ b, body x = Ok b) → ∃ b, for_return body l = Ok b.
Proof.
  induction l as [|x l IH]; intros Hb; simpl; [by eexists|].
  destruct (Hb x) as [b ->]; [left|]. res_simpl. destruct b; [by eexists|].
  apply IH. intros y Hy. apply Hb. by right.
Qed.

Lemma only_IndexError_is_valid g : only_IndexError (is_valid_initial_sudoku g).
Proof.
  unfold is_valid_initial_sudoku.
  apply only_IndexError_bind.
  { apply only_IndexError_for_return. intros i. unfold row_check.
    apply only_IndexError_bind; [apply only_IndexError_index|].
    intros; apply only_IndexError_Ok. }
  intros []; [apply only_IndexError_Ok|].
  apply only_IndexError_bind.
  { apply only_IndexError_for_return. intros j. unfold col_check.
    apply only_IndexError_bind; [|intros; apply only_IndexError_Ok].
    apply only_IndexError_comprehension. intros i. apply only_IndexError_getitem. }
  intros []; [apply only_IndexError_Ok|].
  apply only_IndexError_bind.
  { apply only_IndexError_for_return. intros [br bc]. unfold box_check.
    apply only_IndexError_bind; [|intros; apply only_IndexError_Ok].
    apply only_IndexError_for_acc. intros ns [i j].
    apply only_IndexError_bind; [apply only_IndexError_getitem|].
    intros; apply only_IndexError_Ok. }
  intros []; apply only_IndexError_Ok.
Qed.

Lemma is_valid_true_has_9x9 g : is_valid_initial_sudoku g = Ok true → has_9x9 g.
Proof.
  unfold is_valid_initial_sudoku.
  intros (bad1 & _ & H1)%bind_Ok. destruct bad1; [done|].
  apply bind_Ok in H1 as (bad2 & Hcols & H2). destruct bad2; [done|].
  intros [i j] [Hi Hj]%elem_of_product2. cbn [fst snd] in *.
  assert (col_check g j = Ok false) as Hj'.
  { apply (for_return_false_inv _ _ Hcols). by apply elem_of_range. }
  unfold col_check in Hj'. apply bind_Ok in Hj' as (col & Hcol & _).
  by apply (column_read g j col).
Qed.

(** X7: [is_valid_initial_sudoku] raises nothing but [IndexError], answers
    with a boolean on every board whose 81 cells exist, and answers [True]
    only on such boards. *)
Theorem is_valid_initial_sudoku_defined g :
  only_IndexError (is_valid_initial_sudoku g) ∧
  (is_valid_initial_sudoku g = Ok true → has_9x9 g) ∧
  (has_9x9 g → ∃ b, is_valid_initial_sudoku g = Ok b).
Proof.
  split_and!; [apply only_IndexError_is_valid|apply is_valid_true_has_9x9|].
  intros Hg. unfold is_valid_initial_sudoku.
  destruct (for_return_defined (row_check g) (range 9)) as [b1 ->].
  { intros i Hi%elem_of_range. unfold row_check.
    destruct (Hg (i, 0)%nat) as [v Hv]; [apply elem_of_product2; cbn; lia|].
    unfold cell in Hv. cbn [fst snd] in Hv. unfold index.
    destruct (g !! i); [|done]. by eexists. }
  res_simpl. destruct b1; [by eexists|].
  destruct (for_return_defined (col_check g) (range 9)) as [b2 ->].
  { intros j Hj%elem_of_range. unfold col_check.
    rewrite (comprehension_Ok _ (λ i, value g (i, j))); [by eexists|].
    intros i Hi%elem_of_range. by apply getitem_has_9x9. }
  res_simpl. destruct b2; [by eexists|].
  destruct (for_return_defined (box_check g) (product2 3)) as [b3 ->].
  { intros [br bc] [Hbr Hbc]%elem_of_product2. unfold box_check.
    rewrite (for_acc_Ok _ (λ ns x,
      let n := (λ '(i, j), value g (br * 3 + i, bc * 3 + j)%nat) x in
      if decide (n ≠ 0) then ns ++ [n] else ns)); [by eexists|].
    intros ns [i j] [Hi Hj]%elem_of_product2. cbn [fst snd] in *.
    rewrite getitem_has_9x9 by (done || lia). done. }
  res_simpl. destruct b3; by eexists.
Qed.

(** ** The effect of a placement on the candidates *)

Lemma remove_at_inv sets i x sets' :
  remove_at sets i x = Ok sets' →
  ∃ s, sets !! i = Some s ∧ x ∈ s ∧ sets' = <[i := s ∖ {[x]}]> sets.
Proof.
  unfold remove_at, set_remove, index.
  destruct (sets !! i) as [s|]; [|done]. res_simpl.
  destruct (decide (x ∈ s)); [|done]. res_simpl. intros [= <-]. by exists s.
Qed.

Lemma place_inv p r c v p' :
  place p r c v = Ok p' →
  ∃ R C B,
    rows_possible p !! r = Some R ∧ cols_possible p !! c = Some C ∧
    boxes_possible p !! box_index r c = Some B ∧ v ∈ R ∧ v ∈ C ∧ v ∈ B ∧
    p' = mkPossible (<[r := R ∖ {[v]}]> (rows_possible p))
                    (<[c := C ∖ {[v]}]> (cols_possible p))
                    (<[box_index r c := B ∖ {[v]}]> (boxes_possible p)).
Proof.
  unfold place.
  intros (rs & (R & HR & HvR & ->)%remove_at_inv &
    (cs & (C & HC & HvC & ->)%remove_at_inv &
    (bs & (B & HB & HvB & ->)%remove_at_inv & [= <-])%bind_Ok)%bind_Ok)%bind_Ok.
  by exists R, C, B.
Qed.

Lemma lookup_insert_remove (sets : list (gset Z)) i j s v :
  sets !! i = Some s →
  <[i := s ∖ {[v]}]> sets !! j
  = (λ t : gset Z, if decide (j = i) then t ∖ {[v]} else t) <$> sets !! j.
Proof.
  intros Hs. destruct (decide (j = i)) as [->|Hne].
  - rewrite list_lookup_insert_eq by (by eapply lookup_lt_Some). by rewrite Hs.
  - rewrite list_lookup_insert_ne by done. by destruct (sets !! j).
Qed.

(** X8: A placement removes the digit from the candidates of the cells
    that share the row, the column or the box, and leaves the candidates
    of every other cell as they were. *)
Theorem place_candidates p r c v p' r' c' :
  place p r c v = Ok p' →
  candidates p' r' c' =
    (s ← candidates p r' c';
     Ok (if decide (r' = r ∨ c' = c ∨ box_index r' c' = box_index r c)
         then s ∖ {[v]} else s)).
Proof.
  intros (R & C & B & HR & HC & HB & _ & _ & _ & ->)%place_inv.
  unfold candidates, index. cbn [rows_possible cols_possible boxes_possible].
  rewrite (lookup_insert_remove _ r r' R v HR),
    (lookup_insert_remove _ c c' C v HC),
    (lookup_insert_remove _ _ (box_index r' c') B v HB).
  destruct (rows_possible p !! r') as [R'|]; [|done].
  destruct (cols_possible p !! c') as [C'|]; [|done].
  destruct (boxes_possible p !! box_index r' c') as [B'|]; [|done].
  cbn. f_equal. apply set_eq. intros x.
  repeat case_decide; set_solver.
Qed.

(** X9: [unplace] followed by [place] gives back the state as well, when
    the digit was in none of the three sets. *)
Theorem place_unplace_absent p r c v R C B :
  rows_possible p !! r = Some R → cols_possible p !! c = Some C →
  boxes_possible p !! box_index r c = Some B →
  v ∉ R → v ∉ C → v ∉ B →
  ∃ p', unplace p r c v = Ok p' ∧ place p' r c v = Ok p.
Proof.
  intros HR HC HB HvR HvC HvB. destruct p as [rs cs bs]. simpl in *.
  assert (∀ (sets : list (gset Z)) i s, sets !! i = Some s → v ∉ s →
    add_at sets i v = Ok (<[i := s ∪ {[v]}]> sets) ∧
    remove_at (<[i := s ∪ {[v]}]> sets) i v = Ok sets) as Hone.
  { intros sets i s Hs Hv. unfold add_at, remove_at, set_remove, index.
    rewrite Hs. res_simpl. split; [done|].
    rewrite list_lookup_insert_eq by (by eapply lookup_lt_Some). res_simpl.
    rewrite decide_True by set_solver. res_simpl.
    rewrite list_insert_insert_eq. f_equal. apply list_insert_id.
    rewrite Hs. f_equal. set_solver. }
  destruct (Hone rs r R HR HvR) as [Ha1 Hr1], (Hone cs c C HC HvC) as [Ha2 Hr2],
    (Hone bs _ B HB HvB) as [Ha3 Hr3].
  eexists. unfold unplace, place. cbn [rows_possible cols_possible boxes_possible].
  rewrite Ha1, Ha2, Ha3. res_simpl. split; [done|].
  cbn [rows_possible cols_possible boxes_possible].
  by rewrite Hr1, Hr2, Hr3.
Qed.

(** ** Reading the entries *)

Lemma get_text_Ok es i j s : get_text es i j = Ok s ↔ entry_text es (i, j) = Some s.
Proof.
  unfold get_text, entry_text, index; simpl.
  destruct (es !! i) as [rw|]; simpl; [|by split].
  destruct (rw !! j); split; congruence.
Qed.

Lemma entries9_text es p :
  entries9 es → p ∈ product2 9 → is_Some (entry_text es p).
Proof.
  intros [Hlen Hrows] [Hr Hc]%elem_of_product2. unfold entry_text.
  destruct (lookup_lt_is_Some_2 es p.1) as [row Hrow]; [lia|]. rewrite Hrow; simpl.
  apply lookup_lt_is_Some_2. rewrite Forall_forall in Hrows.
  rewrite (Hrows row); [done|]. by eapply list_elem_of_lookup_2.
Qed.

Lemma for_append_inl {A B E} (f : A → res (B + E)) acc l bs :
  for_append f acc l = Ok (inl bs) ↔
  ∃ ys, bs = acc ++ ys ∧ Forall2 (λ x y, f x = Ok (inl y)) l ys.
Proof.
  revert acc. induction l as [|x l IH]; intros acc; simpl.
  - split.
    + intros [= <-]. exists []. by rewrite app_nil_r.
    + intros (ys & -> & ->%Forall2_nil_inv_l). by rewrite app_nil_r.
  - split.
    + intros ([b|e] & Hx & Hrest)%bind_Ok; [|done].
      apply IH in Hrest as (ys & -> & Hys). exists (b :: ys).
      rewrite <-app_assoc. split; [done|]. by constructor.
    + intros (ys & -> & (b & ys' & Hb & Hys & ->)%Forall2_cons_inv_l).
      rewrite Hb. res_simpl. apply IH. exists ys'. by rewrite <-app_assoc.
Qed.

Lemma for_append_inr {A B E} (f : A → res (B + E)) acc l e :
  for_append f acc l = Ok (inr e) → ∃ x, x ∈ l ∧ f x = Ok (inr e).
Proof.
  revert acc. induction l as [|x l IH]; intros acc; simpl; [done|].
  intros ([b|e'] & Hx & Hrest)%bind_Ok.
  - destruct (IH _ Hrest) as (y & Hy & Hfy). exists y. split; [by right|done].
  - injection Hrest as ->. exists x. split; [left|done].
Qed.

Lemma for_append_defined {A B E} (f : A → res (B + E)) acc l :
  (∀ x, x ∈ l → ∃ r, f x = Ok r) → ∃ r, for_append f acc l = Ok r.
Proof.
  revert acc. induction l as [|x l IH]; intros acc Hf; simpl; [by eexists|].
  destruct (Hf x) as [[b|e] ->]; [left| |]; res_simpl; [|by eexists].
  apply IH. intros y Hy. apply Hf. by right.
Qed.

Section Reading.

Variable int : string → option Z.

Lemma read_entry_inl val n :
  read_entry int val = inl n →
  0 ≤ n ≤ 9 ∧ (n = 0 ↔ val = EmptyString) ∧ (val ≠ EmptyString → int val = Some n).
Proof.
  unfold read_entry. destruct (decide (val = EmptyString)) as [->|Hval].
  { intros [= <-]. split; [lia|]. by split. }
  destruct (int val) as [num|]; [|done].
  destruct (decide (1 ≤ num ≤ 9)) as [Hin|]; [|done]. intros [= <-].
  split; [lia|]. split; [|done]. split; [lia|done].
Qed.

Lemma read_entry_inr val dialog :
  read_entry int val = inr dialog →
  dialog = invalid_input ∧ val ≠ EmptyString ∧ ∀ n, int val = Some n → ¬ 1 ≤ n ≤ 9.
Proof.
  unfold read_entry. destruct (decide (val = EmptyString)) as [->|Hval]; [done|].
  destruct (int val) as [num|]; [|by intros [= <-]].
  destruct (decide (1 ≤ num ≤ 9)) as [|Hout]; [done|]. intros [= <-].
  split; [done|]. split; [done|]. by intros m [= <-].
Qed.

(** The row read from the entries of line [i]. *)
Lemma read_row es i row :
  for_append (λ j, val ← get_text es i j ; Ok (read_entry int val)) [] (range 9)
    = Ok (inl row) →
  length row = 9%nat ∧
  ∀ j, (j < 9)%nat → ∃ val n,
    entry_text es (i, j) = Some val ∧ row !! j = Some n ∧
    read_entry int val = inl n.
Proof.
  intros (ys & -> & Hys)%for_append_inl. rewrite app_nil_l.
  split; [by rewrite <-(Forall2_length _ _ _ Hys)|].
  intros j Hj.
  destruct (Forall2_lookup_l _ _ _ j j Hys) as (n & Hn & Hread);
    [by apply lookup_seq_lt|].
  cbn beta in Hread. apply bind_Ok in Hread as (val & Hval%get_text_Ok & [= Hv]).
  by exists val, n.
Qed.

Lemma read_rows es g :
  get_grid_from_entries int es = Ok (inl g) →
  length g = 9%nat ∧
  ∀ i, (i < 9)%nat → ∃ row, g !! i = Some row ∧ length row = 9%nat ∧
    ∀ j, (j < 9)%nat → ∃ val n,
      entry_text es (i, j) = Some val ∧ row !! j = Some n ∧
      read_entry int val = inl n.
Proof.
  unfold get_grid_from_entries.
  intros (ys & -> & Hys)%for_append_inl. rewrite app_nil_l.
  split; [by rewrite <-(Forall2_length _ _ _ Hys)|].
  intros i Hi.
  destruct (Forall2_lookup_l _ _ _ i i Hys) as (row & Hrow & Hread);
    [by apply lookup_seq_lt|].
  exists row. split; [done|]. by apply read_row.
Qed.

Lemma get_grid_from_entries_cells es g :
  get_grid_from_entries int es = Ok (inl g) →
  shape9 g ∧ digits09 g ∧
  ∀ i j, (i < 9)%nat → (j < 9)%nat → ∃ val n,
    entry_text es (i, j) = Some val ∧ cell g (i, j) = Some n ∧
    (n = 0 ↔ val = EmptyString) ∧ (val ≠ EmptyString → int val = Some n).
Proof.
  intros (Hlen & Hrows)%read_rows.
  assert (∀ row, row ∈ g →
    length row = 9%nat ∧ Forall (λ v, 0 ≤ v ≤ 9) row) as Hrow.
  { intros row (i & Hi)%list_elem_of_lookup_1.
    destruct (Hrows i) as (row' & Hrow' & Hl & Hcells);
      [apply lookup_lt_Some in Hi; lia|].
    rewrite Hi in Hrow'. injection Hrow' as <-. split; [done|].
    apply Forall_lookup. intros j v Hv.
    destruct (Hcells j) as (val & n & _ & Hn & Hread);
      [apply lookup_lt_Some in Hv; lia|].
    rewrite Hv in Hn. injection Hn as <-. by apply read_entry_inl in Hread as [? _]. }
  split_and!.
  - split; [done|]. apply Forall_forall. intros row Hin. by apply Hrow.
  - apply Forall_forall. intros row Hin. by apply Hrow.
  - intros i j Hi Hj. destruct (Hrows i Hi) as (row & Hr & _ & Hcells).
    destruct (Hcells j Hj) as (val & n & Hval & Hn & Hread).
    exists val, n. apply read_entry_inl in Hread as (_ & H0 & Hint).
    split_and!; try done. unfold cell. cbn [fst snd]. by rewrite Hr.
Qed.

(** X10: Every grid [get_grid_from_entries] returns has nine rows of nine
    integers between 0 and 9; a cell is 0 exactly when its entry is
    empty, and otherwise holds what [int] makes of the text. *)
Theorem get_grid_from_entries_grid es g :
  get_grid_from_entries int es = Ok (inl g) →
  shape9 g ∧ digits09 g ∧
  ∀ i j, (i < 9)%nat → (j < 9)%nat → ∃ val n,
    entry_text es (i, j) = Some val ∧ cell g (i, j) = Some n ∧
    (n = 0 ↔ val = EmptyString) ∧ (val ≠ EmptyString → int val = Some n).
Proof. apply get_grid_from_entries_cells. Qed.

(** X11: [get_grid_from_entries] gives up, with the dialog "Invalid Input",
    only at an entry that is not empty and that [int] rejects or turns
    into a number outside 1-9. *)
Theorem get_grid_from_entries_rejected es dialog :
  get_grid_from_entries int es = Ok (inr dialog) →
  dialog = invalid_input ∧
  ∃ i j val, (i < 9)%nat ∧ (j < 9)%nat ∧ entry_text es (i, j) = Some val ∧
    val ≠ EmptyString ∧ ∀ n, int val = Some n → ¬ 1 ≤ n ≤ 9.
Proof.
  unfold get_grid_from_entries.
  intros (i & Hi%elem_of_range & (j & Hj%elem_of_range & Hread)%for_append_inr)%for_append_inr.
  cbn beta in Hread. apply bind_Ok in Hread as (val & Hval%get_text_Ok & [= Hv]).
  apply read_entry_inr in Hv as (-> & Hne & Hint). split; [done|].
  by exists i, j, val.
Qed.

Lemma get_grid_from_entries_defined es :
  entries9 es → ∃ r, get_grid_from_entries int es = Ok r.
Proof.
  intros Hes. apply for_append_defined. intros i Hi%elem_of_range.
  apply for_append_defined. intros j Hj%elem_of_range.
  destruct (entries9_text es (i, j) Hes) as [val Hval];
    [by apply elem_of_product2|].
  apply get_text_Ok in Hval. rewrite Hval. by eexists.
Qed.

End Reading.

(** ** Writing the entries *)

Lemma append_empty_r s : s +:+ EmptyString = s.
Proof.
  induction s as [|a s IH]; [done|].
  change (String a (s +:+ EmptyString) = String a s). by rewrite IH.
Qed.

Lemma set_text_Ok es i j s :
  is_Some (entry_text es (i, j)) →
  ∃ es', set_text es i j s = Ok es' ∧
    (entries9 es → entries9 es') ∧
    ∀ p, entry_text es' p = if decide (p = (i, j)) then Some s else entry_text es p.
Proof.
  unfold entry_text, set_text, index; simpl. intros [x Hx].
  destruct (es !! i) as [rw|] eqn:Hr; simpl in *; [|done].
  apply lookup_lt_Some in Hx as Hc. apply lookup_lt_Some in Hr as Hlt.
  rewrite decide_True by done. eexists; split; [done|]. split.
  - intros [Hlen Hrows]. split; [by rewrite length_insert|].
    apply Forall_insert; [done|]. rewrite length_insert.
    rewrite Forall_forall in Hrows. apply Hrows. by eapply list_elem_of_lookup_2.
  - intros [r' c']; simpl. destruct (decide (r' = i)) as [->|Hne].
    + rewrite list_lookup_insert_eq by done. simpl.
      destruct (decide (c' = j)) as [->|Hne'].
      * rewrite decide_True by done. by apply list_lookup_insert_eq.
      * rewrite decide_False by congruence.
        rewrite list_lookup_insert_ne by done. by rewrite Hr.
    + rewrite decide_False by congruence. by rewrite list_lookup_insert_ne.
Qed.

Lemma for_acc_app {A S} (body : S → A → res S) acc l1 l2 :
  for_acc body acc (l1 ++ l2) = (acc' ← for_acc body acc l1 ; for_acc body acc' l2).
Proof.
  revert acc. induction l1 as [|x l1 IH]; intros acc; simpl; [done|].
  destruct (body acc x); res_simpl; [apply IH|done].
Qed.

(** Two nested loops visit the pairs in the order of their product. *)
Lemma for_acc_nested {A B S} (body : S → A * B → res S) acc l1 l2 :
  for_acc (λ s i, for_acc (λ s j, body s (i, j)) s l2) acc l1
  = for_acc body acc (i ← l1; (λ j, (i, j)) <$> l2).
Proof.
  revert acc. induction l1 as [|i l1 IH]; intros acc; [done|].
  cbn [for_acc]. rewrite bind_cons, for_acc_app.
  assert (∀ s, for_acc (λ s j, body s (i, j)) s l2
               = for_acc body s ((λ j, (i, j)) <$> l2)) as Hrow.
  { clear. induction l2 as [|j l2 IH]; intros s; simpl; [done|].
    destruct (body s (i, j)); res_simpl; [apply IH|done]. }
  rewrite Hrow. destruct (for_acc body acc _); res_simpl; [apply IH|done].
Qed.

(** A loop whose iteration at [p] puts the text [t p] into the entry at
    [p] leaves these texts in the entries it has visited and the others
    as they were. *)
Lemma for_acc_entries (body : list (list string) → Pos → res (list (list string)))
    (t : Pos → string) ps es :
  entries9 es →
  (∀ es p, entries9 es → p ∈ ps →
     ∃ es', body es p = Ok es' ∧ entries9 es' ∧
       ∀ q, entry_text es' q = if decide (q = p) then Some (t p) else entry_text es q) →
  ∃ es', for_acc body es ps = Ok es' ∧ entries9 es' ∧
    ∀ q, entry_text es' q = if decide (q ∈ ps) then Some (t q) else entry_text es q.
Proof.
  revert es. induction ps as [|p ps IH]; intros es Hes Hbody; cbn [for_acc].
  { exists es. split_and!; [done..|]. intros q. rewrite decide_False; [done|].
    apply not_elem_of_nil. }
  destruct (Hbody es p Hes) as (es1 & -> & Hes1 & Hp); [left|]. res_simpl.
  destruct (IH es1 Hes1) as (es' & -> & Hes' & Hps).
  { intros es2 q Hes2 Hq. apply Hbody; [done|by right]. }
  exists es'. split_and!; [done..|]. intros q. rewrite Hps, Hp.
  destruct (decide (q ∈ ps)) as [Hq|Hq].
  - rewrite decide_True; [done|by right].
  - destruct (decide (q = p)) as [->|Hne].
    + rewrite decide_True; [done|left].
    + rewrite decide_False; [done|]. by intros [?|?]%elem_of_cons.
Qed.

Lemma entries9_ext a b :
  entries9 a → entries9 b →
  (∀ p, p ∈ product2 9 → entry_text a p = entry_text b p) → a = b.
Proof.
  intros [Hla Hra] [Hlb Hrb] Heq. apply list_eq. intros i.
  destruct (decide (i < 9)%nat) as [Hi|Hi].
  2:{ by rewrite !(proj2 (lookup_ge_None _ _)) by lia. }
  destruct (lookup_lt_is_Some_2 a i) as [ra Ha]; [lia|].
  destruct (lookup_lt_is_Some_2 b i) as [rb Hb]; [lia|].
  rewrite Ha, Hb. f_equal.
  pose proof (Forall_lookup_1 _ _ _ _ Hra Ha) as Hlra.
  pose proof (Forall_lookup_1 _ _ _ _ Hrb Hb) as Hlrb. cbn beta in Hlra, Hlrb.
  apply list_eq. intros j. destruct (decide (j < 9)%nat) as [Hj|Hj].
  2:{ by rewrite !(proj2 (lookup_ge_None _ _)) by lia. }
  specialize (Heq (i, j)). unfold entry_text in Heq. cbn [fst snd] in Heq.
  rewrite Ha, Hb in Heq. apply Heq. by apply elem_of_product2.
Qed.

Lemma entries9_fmap (str : Z → string) g : shape9 g → entries9 (printed str g).
Proof.
  unfold printed. intros [Hlen Hrows]. split; [by rewrite length_fmap|].
  apply Forall_fmap. eapply Forall_impl; [done|]. intros row Hrow. cbn.
  by rewrite length_fmap.
Qed.

Lemma entry_text_fmap (str : Z → string) g p :
  entry_text (printed str g) p = str <$> cell g p.
Proof.
  unfold entry_text, cell, printed. rewrite list_lookup_fmap.
  destruct (g !! p.1) as [row|]; [|done]. cbn. by rewrite list_lookup_fmap.
Qed.

Section Writing.

Variable int : string → option Z.
Variable str : Z → string.

Lemma fill_entry g es i j :
  entries9 es → shape9 g → (i, j) ∈ product2 9 →
  ∃ es',
    (es1 ← delete_text es i j ;
     n ← getitem g i j ;
     insert_text es1 i j (str n)) = Ok es' ∧
    entries9 es' ∧
    ∀ q, entry_text es' q
         = if decide (q = (i, j)) then Some (str (value g (i, j)))
           else entry_text es q.
Proof.
  intros Hes Hg Hij. pose proof Hij as [Hi Hj]%elem_of_product2.
  cbn [fst snd] in Hi, Hj. unfold delete_text, insert_text.
  destruct (set_text_Ok es i j EmptyString) as (es1 & -> & Hes1 & Ht1);
    [by apply entries9_text|].
  res_simpl. rewrite (getitem_shape9 g i j) by done. res_simpl.
  assert (entry_text es1 (i, j) = Some EmptyString) as Hempty by (by rewrite Ht1, decide_True).
  rewrite (proj2 (get_text_Ok _ _ _ _) Hempty). res_simpl.
  rewrite append_empty_r.
  destruct (set_text_Ok es1 i j (str (value g (i, j)))) as (es' & -> & Hes' & Ht');
    [by rewrite Hempty|].
  exists es'. split_and!; [done|by apply Hes', Hes1|].
  intros q. rewrite Ht', Ht1. by destruct (decide (q = (i, j))).
Qed.

Lemma fill_grid_to_entries_Ok g es :
  entries9 es → shape9 g → fill_grid_to_entries str g es = Ok (printed str g).
Proof.
  intros Hes Hg. unfold fill_grid_to_entries.
  pose proof (for_acc_nested (λ es '(i, j),
    es1 ← delete_text es i j ; n ← getitem g i j ; insert_text es1 i j (str n))
    es (range 9) (range 9)) as Hflat.
  cbn beta iota in Hflat. rewrite Hflat. clear Hflat.
  destruct (for_acc_entries (λ es '(i, j),
    es1 ← delete_text es i j ; n ← getitem g i j ; insert_text es1 i j (str n))
    (λ p, str (value g p)) (product2 9) es Hes) as (es' & Hrun & Hes' & Ht).
  { intros es2 [i j] Hes2 Hij. by apply fill_entry. }
  unfold product2 in Hrun at 1. rewrite Hrun. f_equal.
  apply entries9_ext; [done|by apply entries9_fmap|].
  intros p Hp. rewrite Ht, decide_True, entry_text_fmap by done.
  pose proof Hp as [Hr Hc]%elem_of_product2. by rewrite shape9_cell.
Qed.

Lemma reset_entries_Ok es :
  entries9 es →
  for_acc (λ es i, for_acc (λ es j, delete_text es i j) es (range 9)) es (range 9)
  = Ok (replicate 9 (replicate 9 EmptyString)).
Proof.
  intros Hes.
  pose proof (for_acc_nested (λ es '(i, j), delete_text es i j)
    es (range 9) (range 9)) as Hflat.
  cbn beta iota in Hflat. rewrite Hflat. clear Hflat.
  destruct (for_acc_entries (λ es '(i, j), delete_text es i j)
    (λ _, EmptyString) (product2 9) es Hes) as (es' & Hrun & Hes' & Ht).
  { intros es2 [i j] Hes2 Hij.
    destruct (set_text_Ok es2 i j EmptyString) as (es3 & He & H9 & Ht);
      [by apply entries9_text|].
    exists es3. split_and!; [done|by apply H9|done]. }
  unfold product2 in Hrun at 1. rewrite Hrun. f_equal.
  apply entries9_ext; [done|by split; [|repeat constructor]|].
  intros p Hp. rewrite Ht, decide_True by done.
  destruct p as [i j]. apply elem_of_product2 in Hp as [Hr Hc].
  cbn [fst snd] in Hr, Hc.
  do 9 (destruct i as [|i]; [do 9 (destruct j as [|j]; [done|]); lia|]). lia.
Qed.

(** X12: [reset_grid] brings every window with 9x9 entries back to the
    window the module starts with: empty entries, heading shown, button
    "Solve Sudoku" bound to [solve_button_click]; from these entries
    [get_grid_from_entries] reads the empty board. *)
Theorem reset_grid_initial_window w :
  entries9 (entries w) →
  reset_grid w = Ok initial_window ∧
  get_grid_from_entries int (entries initial_window)
  = Ok (inl (replicate 9 (replicate 9 0))).
Proof.
  intros Hes. split; [|reflexivity].
  unfold reset_grid. by rewrite reset_entries_Ok.
Qed.

Lemma get_grid_from_texts g :
  (∀ n, 1 ≤ n ≤ 9 → str n ≠ EmptyString ∧ int (str n) = Some n) →
  shape9 g → Forall (Forall (λ v, 1 ≤ v ≤ 9)) g →
  get_grid_from_entries int (printed str g) = Ok (inl g).
Proof.
  intros Hround [Hlen Hrows] Hdig.
  assert (∀ v, 1 ≤ v ≤ 9 → read_entry int (str v) = inl v) as Hread.
  { intros v Hv. destruct (Hround v Hv) as [Hne Hint]. unfold read_entry.
    by rewrite decide_False, Hint, decide_True. }
  unfold get_grid_from_entries, range.
  apply for_append_inl. exists g. split; [done|].
  apply Forall2_same_length_lookup. split; [by rewrite length_seq|].
  intros i i' row Hi%lookup_seq Hrow. destruct Hi as [-> Hi]. cbn [plus].
  apply for_append_inl. exists row. split; [done|].
  pose proof (Forall_lookup_1 _ _ _ _ Hrows Hrow) as Hl.
  pose proof (Forall_lookup_1 _ _ _ _ Hdig Hrow) as Hd. cbn beta in Hl, Hd.
  apply Forall2_same_length_lookup. split; [by rewrite length_seq|].
  intros j j' v Hj%lookup_seq Hv. destruct Hj as [-> Hj]. cbn [plus].
  assert (get_text (printed str g) i j = Ok (str v)) as ->.
  { apply get_text_Ok. rewrite entry_text_fmap. unfold cell. cbn [fst snd].
    by rewrite Hrow; cbn; rewrite Hv. }
  res_simpl. f_equal. apply Hread. exact (Forall_lookup_1 _ _ _ _ Hd Hv).
Qed.

(** X13: When [int] reads back what [str] prints for the digits 1-9,
    filling the entries with a board of digits 1-9 and reading them
    again gives the board back. *)
Theorem get_grid_after_fill g es :
  (∀ n, 1 ≤ n ≤ 9 → str n ≠ EmptyString ∧ int (str n) = Some n) →
  entries9 es → shape9 g → Forall (Forall (λ v, 1 ≤ v ≤ 9)) g →
  ∃ es', fill_grid_to_entries str g es = Ok es' ∧
         get_grid_from_entries int es' = Ok (inl g).
Proof.
  intros Hround Hes Hg Hdig. exists (printed str g).
  split; [by apply fill_grid_to_entries_Ok|by apply get_grid_from_texts].
Qed.

End Writing.

(** ** A click on the button *)

Section Click.

Variable int : string → option Z.
Variable str : Z → string.
Variable order : State → gset Z → list Z.
Hypothesis order_perm : ∀ st s, order st s ≡ₚ elements s.

(** X14: A click on "Solve Sudoku" in a window with 9x9 entries ends in one
    of three ways.  An entry is rejected: the dialog "Invalid Input" is
    shown and the window is unchanged.  The board read has no completion,
    because it repeats a digit or because the search fails: the dialog
    "Sudoku is incorrect" is shown and the window is unchanged.  The board
    read has a completion: no dialog is shown, the entries show a
    completion of the board, the heading is hidden and the button becomes
    "Reset", bound to [reset_grid]. *)
Theorem solve_button_click_outcome fuel w :
  entries9 (entries w) → (81 < fuel)%nat →
  (∃ dialog,
     get_grid_from_entries int (entries w) = Ok (inr dialog) ∧
     solve_button_click int str order fuel w = Shown w [dialog]) ∨
  (∃ g,
     get_grid_from_entries int (entries w) = Ok (inl g) ∧
     (∀ sol, ¬ completes g sol) ∧
     solve_button_click int str order fuel w = Shown w [incorrect]) ∨
  (∃ g sol,
     get_grid_from_entries int (entries w) = Ok (inl g) ∧
     completes g sol ∧
     solve_button_click int str order fuel w
     = Shown (mkWindow (printed str sol) false "Reset" reset_grid_command) []).
Proof.
  intros Hes Hfuel. unfold solve_button_click.
  destruct (get_grid_from_entries_defined int (entries w) Hes) as [[g|dialog] Hread];
    rewrite Hread; [|left; by exists dialog].
  right. destruct (get_grid_from_entries_cells int _ _ Hread) as (Hg & Hd & _).
  destruct (is_valid_initial_sudoku_spec g Hg) as (ok & -> & Hok).
  destruct ok.
  2:{ left. exists g. split_and!; [done| |done]. intros sol Hsol.
      destruct (completes_sound_board g sol Hsol) as [_ Hnd].
      by apply Hok in Hnd. }
  pose proof (empties_le g) as Hle.
  destruct (solve_sudoku_run order order_perm g fuel Hg ltac:(lia))
    as (p & tr & b & st' & _ & -> & _ & _ & Hnone & Hsome).
  destruct b; [|left; exists g; by split_and!; [|apply Hnone|]].
  right. assert (completes g (grid st')) as Hsol.
  { apply Hsome; [done|by apply digits09_cells|by apply Hok]. }
  exists g, (grid st'). split_and!; [done..|].
  rewrite (fill_grid_to_entries_Ok str); [done|done|by destruct Hsol].
Qed.

End Click.

(** * Runs on the sample boards *)

Lemma enumeration_perm st s : enumeration st s ≡ₚ elements s.
Proof. reflexivity. Qed.

(** The puzzle is solved, with its known solution. *)
Example puzzle_solved :
  is_valid_initial_sudoku puzzle = Ok true ∧
  ∃ st, puzzle_run.2 = Done true st ∧ grid st = puzzle_solution.
Proof. split; [by vm_compute|]. eexists. split; by vm_compute. Qed.

(** The dead end is accepted by the check and reported unsolvable after
    one placement and its withdrawal. *)
Example dead_end_unsolvable :
  is_valid_initial_sudoku dead_end = Ok true ∧
  length dead_end_run.1 = 2%nat ∧
  dead_end_run.2 = Done false (state_of dead_end).
Proof. split_and!; by vm_compute. Qed.

(** Two equal digits in a row are rejected by the check. *)
Example repeated_digit_rejected :
  is_valid_initial_sudoku ([5;5;0;0;0;0;0;0;0] :: replicate 8 (replicate 9 0))
  = Ok false.
Proof. by vm_compute. Qed.

(** A solved board is returned as it is. *)
Example solved_board_unchanged :
  solve_sudoku enumeration 82 puzzle_solution
  = ([], Done true (state_of puzzle_solution)).
Proof. by vm_compute. Qed.

(** * The statements at sample inputs *)

Lemma solve_sudoku_decides_witness :
  (∀ st s, enumeration st s ≡ₚ elements s) ∧
  shape9 almost_solved ∧ digits09 almost_solved ∧ is_valid_initial_sudoku almost_solved = Ok true ∧
  (empties almost_solved < 82)%nat ∧
  ∃ tr b st', solve_sudoku enumeration 82 almost_solved = (tr, Done b st') ∧
    (b = true ↔ ∃ sol, completes almost_solved sol).
Proof.
  assert (shape9 almost_solved) as H1 by compute_done.
  assert (digits09 almost_solved) as H2 by compute_done.
  assert (is_valid_initial_sudoku almost_solved = Ok true) as H3 by (vm_compute; reflexivity).
  assert (empties almost_solved < 82)%nat as H4 by (vm_compute; lia).
  split_and!; [apply enumeration_perm|assumption..|].
  exact (solve_sudoku_decides enumeration enumeration_perm almost_solved 82 H1 H2 H3 H4).
Defined.

Lemma solve_sudoku_true_solved_witness :
  (∀ st s, enumeration st s ≡ₚ elements s) ∧
  shape9 almost_solved ∧ digits09 almost_solved ∧ is_valid_initial_sudoku almost_solved = Ok true ∧
  (empties almost_solved < 82)%nat ∧
  solve_sudoku enumeration 82 almost_solved = (easy_run.1, Done true (final_state easy_run)) ∧
  solved (grid (final_state easy_run)).
Proof.
  assert (shape9 almost_solved) as H1 by compute_done.
  assert (digits09 almost_solved) as H2 by compute_done.
  assert (is_valid_initial_sudoku almost_solved = Ok true) as H3 by (vm_compute; reflexivity).
  assert (empties almost_solved < 82)%nat as H4 by (vm_compute; lia).
  assert (solve_sudoku enumeration 82 almost_solved
          = (easy_run.1, Done true (final_state easy_run))) as H5
    by (vm_compute; reflexivity).
  split_and!; [apply enumeration_perm|assumption..|].
  exact (solve_sudoku_true_solved enumeration enumeration_perm almost_solved 82 _ _
           H1 H2 H3 H4 H5).
Defined.

Lemma solve_sudoku_false_restores_witness :
  (∀ st s, enumeration st s ≡ₚ elements s) ∧
  solve_sudoku enumeration 82 dead_end
    = (dead_end_run.1, Done false (final_state dead_end_run)) ∧
  grid (final_state dead_end_run) = dead_end.
Proof.
  assert (solve_sudoku enumeration 82 dead_end
          = (dead_end_run.1, Done false (final_state dead_end_run))) as H1
    by (vm_compute; reflexivity).
  split_and!; [apply enumeration_perm|assumption|].
  exact (solve_sudoku_false_restores enumeration enumeration_perm dead_end 82 _ _ H1).
Defined.

Lemma solve_sudoku_keeps_filled_witness :
  (∀ st s, enumeration st s ≡ₚ elements s) ∧
  solve_sudoku enumeration 82 almost_solved
    = (easy_run.1, Done true (final_state easy_run)) ∧
  cell almost_solved (0, 1)%nat = Some 3 ∧ 3 ≠ 0 ∧
  cell (grid (final_state easy_run)) (0, 1)%nat = Some 3 ∧
  Forall (λ st, cell (grid st) (0, 1)%nat = Some 3) easy_run.1.
Proof.
  assert (solve_sudoku enumeration 82 almost_solved
          = (easy_run.1, Done true (final_state easy_run))) as H1
    by (vm_compute; reflexivity).
  assert (cell almost_solved (0, 1)%nat = Some 3) as H2 by reflexivity.
  assert (3 ≠ 0) as H3 by lia.
  split_and!; [apply enumeration_perm|assumption..| |];
    apply (solve_sudoku_keeps_filled enumeration enumeration_perm almost_solved 82 _ _ _
             0%nat 1%nat 3 H1 H2 H3).
Defined.

Lemma possibility_invariant_throughout_witness :
  (∀ st s, enumeration st s ≡ₚ elements s) ∧
  shape9 dead_end ∧ (empties dead_end < 82)%nat ∧
  ∃ p tr b st',
    get_possible_numbers dead_end = Ok p ∧
    solve_sudoku enumeration 82 dead_end = (tr, Done b st') ∧
    Forall possibility_invariant (mkState dead_end p :: tr) ∧
    possibility_invariant st'.
Proof.
  assert (shape9 dead_end) as H1 by compute_done.
  assert (empties dead_end < 82)%nat as H2 by (vm_compute; lia).
  split_and!; [apply enumeration_perm|assumption..|].
  exact (possibility_invariant_throughout enumeration enumeration_perm dead_end 82 H1 H2).
Defined.

Lemma solve_sudoku_terminates_witness :
  (∀ st s, enumeration st s ≡ₚ elements s) ∧
  shape9 dead_end ∧
  (empties dead_end ≤ 81)%nat ∧
  ∀ fuel, (empties dead_end < fuel)%nat →
    ∃ tr b st', solve_sudoku enumeration fuel dead_end = (tr, Done b st').
Proof.
  assert (shape9 dead_end) as H1 by compute_done.
  split_and!; [apply enumeration_perm|assumption|..];
    apply (solve_sudoku_terminates enumeration enumeration_perm dead_end H1).
Defined.

Lemma backtrack_remove_succeeds_witness :
  (∀ st s, enumeration st s ≡ₚ elements s) ∧
  (backtrack enumeration 82 (state_of dead_end)).2 ≠ Raised KeyError.
Proof.
  split; [apply enumeration_perm|].
  exact (backtrack_remove_succeeds enumeration enumeration_perm 82 (state_of dead_end)).
Defined.

Lemma get_possible_numbers_missing_witness :
  shape9 almost_solved ∧
  ∃ p, get_possible_numbers almost_solved = Ok p ∧
    tracks almost_solved row_cells (rows_possible p) ∧
    tracks almost_solved col_cells (cols_possible p) ∧
    tracks almost_solved box_cells (boxes_possible p).
Proof.
  assert (shape9 almost_solved) as H1 by compute_done.
  split; [done|]. exact (get_possible_numbers_missing almost_solved H1).
Defined.

Lemma is_valid_initial_sudoku_no_duplicates_witness :
  shape9 almost_solved ∧
  ∃ b, is_valid_initial_sudoku almost_solved = Ok b ∧ (b = true ↔ no_duplicates almost_solved).
Proof.
  assert (shape9 almost_solved) as H1 by compute_done.
  split; [done|]. exact (is_valid_initial_sudoku_no_duplicates almost_solved H1).
Defined.

Lemma unplace_place_member_witness :
  rows_possible all_free !! 0%nat = Some all_numbers ∧
  cols_possible all_free !! 0%nat = Some all_numbers ∧
  boxes_possible all_free !! box_index 0 0 = Some all_numbers ∧
  5 ∈ all_numbers ∧
  ∃ p', place all_free 0 0 5 = Ok p' ∧ unplace p' 0 0 5 = Ok all_free.
Proof.
  assert (5 ∈ all_numbers) as H by (apply elem_of_all_numbers; lia).
  split_and!; [reflexivity..|done|].
  exact (unplace_place_member all_free 0 0 5 all_numbers all_numbers all_numbers
           eq_refl eq_refl eq_refl H H H).
Defined.

(** C9, as stated, fails where the digit is absent from one of the sets:
    [place] raises [KeyError], so nothing is given back. *)
Lemma unplace_place_absent :
  place one_used 0 0 1 = Raise KeyError ∧
  (p' ← place one_used 0 0 1; unplace p' 0 0 1) ≠ Ok one_used.
Proof.
  assert (place one_used 0 0 1 = Raise KeyError) as H by (vm_compute; reflexivity).
  split; [done|]. by rewrite H.
Qed.

(** * The further properties at sample inputs *)

Lemma completes_intro g sol :
  shape9 g → shape9 sol → Forall (Forall (λ v, 1 ≤ v ≤ 9)) sol →
  is_valid_initial_sudoku sol = Ok true →
  Forall (λ p, cell g p = Some 0 ∨ cell g p = cell sol p) (product2 9) →
  completes g sol.
Proof.
  intros Hg Hs Hdig Hvalid Hagree.
  destruct (is_valid_initial_sudoku_spec sol Hs) as (ok & Hok & Hnd).
  rewrite Hvalid in Hok. injection Hok as <-.
  split_and!; [done| | |by apply Hnd].
  - intros p v Hp Hv. destruct (cell_in_range g p v Hg Hp) as [Hr Hc].
    rewrite Forall_forall in Hagree.
    destruct (Hagree p) as [H0|Heq]; [by apply elem_of_product2|congruence|].
    by rewrite <-Heq.
  - intros p v. unfold cell.
    destruct (sol !! p.1) as [row|] eqn:Hrow; simpl; [|done]. intros Hv.
    pose proof (Forall_lookup_1 _ _ _ _ Hdig Hrow) as Hr.
    exact (Forall_lookup_1 _ _ _ _ Hr Hv).
Qed.

Lemma digit_round_trip n :
  1 ≤ n ≤ 9 → digit_str n ≠ EmptyString ∧ digit_int (digit_str n) = Some n.
Proof.
  intros Hn.
  assert (n = 1 ∨ n = 2 ∨ n = 3 ∨ n = 4 ∨ n = 5 ∨ n = 6 ∨ n = 7 ∨ n = 8 ∨ n = 9)
    as Hcases by lia.
  destruct_or!; subst n; split; (done || reflexivity).
Qed.

Lemma solve_sudoku_true_filled_witness :
  solve_sudoku enumeration 82 almost_solved
    = (easy_run.1, Done true (final_state easy_run)) ∧
  filled (grid (final_state easy_run)).
Proof.
  assert (solve_sudoku enumeration 82 almost_solved
          = (easy_run.1, Done true (final_state easy_run))) as H1
    by (vm_compute; reflexivity).
  split; [assumption|].
  exact (solve_sudoku_true_filled enumeration almost_solved 82 _ _ H1).
Defined.

Lemma solve_sudoku_full_board_witness :
  shape9 all_ones ∧ full all_ones ∧ (0 < 82)%nat ∧
  ∃ p, get_possible_numbers all_ones = Ok p ∧
       solve_sudoku enumeration 82 all_ones = ([], Done true (mkState all_ones p)).
Proof.
  assert (shape9 all_ones) as H1 by compute_done.
  assert (full all_ones) as H2
    by (unfold full; rewrite <-Forall_forall; compute_done).
  assert (0 < 82)%nat as H3 by lia.
  split_and!; [assumption..|].
  exact (solve_sudoku_full_board enumeration all_ones 82 H1 H2 H3).
Defined.

Lemma solve_sudoku_finds_completion_witness :
  (∀ st s, enumeration st s ≡ₚ elements s) ∧
  shape9 almost_solved ∧ completes almost_solved puzzle_solution ∧
  (empties almost_solved < 82)%nat ∧
  ∃ tr st', solve_sudoku enumeration 82 almost_solved = (tr, Done true st') ∧
    completes almost_solved (grid st') ∧
    ((∀ sol', completes almost_solved sol' → sol' = puzzle_solution) →
     grid st' = puzzle_solution).
Proof.
  assert (shape9 almost_solved) as H1 by compute_done.
  assert (completes almost_solved puzzle_solution) as H2.
  { apply completes_intro; [compute_done..|vm_compute; reflexivity|compute_done]. }
  assert (empties almost_solved < 82)%nat as H3 by (vm_compute; lia).
  split_and!; [apply enumeration_perm|assumption..|].
  exact (solve_sudoku_finds_completion enumeration enumeration_perm
           almost_solved 82 puzzle_solution H1 H2 H3).
Defined.

Lemma get_possible_numbers_sets_witness :
  get_possible_numbers almost_solved = Ok (possible (state_of almost_solved)) ∧
  length (rows_possible (possible (state_of almost_solved))) = length almost_solved ∧
  length (cols_possible (possible (state_of almost_solved))) = 9%nat ∧
  length (boxes_possible (possible (state_of almost_solved))) = 9%nat ∧
  ∀ s, s ∈ rows_possible (possible (state_of almost_solved))
           ++ cols_possible (possible (state_of almost_solved))
           ++ boxes_possible (possible (state_of almost_solved)) →
    s ⊆ all_numbers.
Proof.
  assert (get_possible_numbers almost_solved
          = Ok (possible (state_of almost_solved))) as H1
    by (vm_compute; reflexivity).
  split; [assumption|].
  exact (get_possible_numbers_sets almost_solved _ H1).
Defined.

Lemma solve_sudoku_ends_on_every_board_witness :
  (∀ st s, enumeration st s ≡ₚ elements s) ∧
  (empties short_board < 82)%nat ∧
  (has_9x9 short_board →
     ∃ tr b st', solve_sudoku enumeration 82 short_board = (tr, Done b st')) ∧
  (¬ has_9x9 short_board →
     solve_sudoku enumeration 82 short_board = ([], Raised IndexError)).
Proof.
  assert (empties short_board < 82)%nat as H1 by (vm_compute; lia).
  split_and!; [apply enumeration_perm|assumption|..];
    apply (solve_sudoku_ends_on_every_board enumeration enumeration_perm
             short_board 82 H1).
Defined.

Lemma place_candidates_witness :
  place all_free 0 0 5 = Ok five_placed ∧
  candidates five_placed 0 8 =
    (s ← candidates all_free 0 8;
     Ok (if decide (0%nat = 0%nat ∨ 8%nat = 0%nat ∨ box_index 0 8 = box_index 0 0)
         then s ∖ {[5]} else s)).
Proof.
  assert (place all_free 0 0 5 = Ok five_placed) as H1 by (vm_compute; reflexivity).
  split; [assumption|].
  exact (place_candidates all_free 0 0 5 five_placed 0 8 H1).
Defined.

Lemma place_unplace_absent_witness :
  rows_possible one_used !! 0%nat = Some (all_numbers ∖ {[1]}) ∧
  cols_possible one_used !! 0%nat = Some (all_numbers ∖ {[1]}) ∧
  boxes_possible one_used !! box_index 0 0 = Some (all_numbers ∖ {[1]}) ∧
  1 ∉ all_numbers ∖ {[1]} ∧
  ∃ p', unplace one_used 0 0 1 = Ok p' ∧ place p' 0 0 1 = Ok one_used.
Proof.
  assert (1 ∉ all_numbers ∖ {[1]}) as H by set_solver.
  split_and!; [reflexivity..|assumption|].
  exact (place_unplace_absent one_used 0 0 1 _ _ _ eq_refl eq_refl eq_refl H H H).
Defined.

Lemma get_grid_from_entries_grid_witness :
  get_grid_from_entries digit_int (texts_of almost_solved) = Ok (inl almost_solved) ∧
  shape9 almost_solved ∧ digits09 almost_solved ∧
  ∀ i j, (i < 9)%nat → (j < 9)%nat → ∃ val n,
    entry_text (texts_of almost_solved) (i, j) = Some val ∧
    cell almost_solved (i, j) = Some n ∧
    (n = 0 ↔ val = EmptyString) ∧ (val ≠ EmptyString → digit_int val = Some n).
Proof.
  assert (get_grid_from_entries digit_int (texts_of almost_solved)
          = Ok (inl almost_solved)) as H1 by (vm_compute; reflexivity).
  split; [assumption|].
  exact (get_grid_from_entries_grid digit_int _ _ H1).
Defined.

Lemma get_grid_from_entries_rejected_witness :
  get_grid_from_entries digit_int typo_texts = Ok (inr invalid_input) ∧
  invalid_input = invalid_input ∧
  ∃ i j val, (i < 9)%nat ∧ (j < 9)%nat ∧ entry_text typo_texts (i, j) = Some val ∧
    val ≠ EmptyString ∧ ∀ n, digit_int val = Some n → ¬ 1 ≤ n ≤ 9.
Proof.
  assert (get_grid_from_entries digit_int typo_texts = Ok (inr invalid_input)) as H1
    by (vm_compute; reflexivity).
  split; [assumption|].
  exact (get_grid_from_entries_rejected digit_int _ _ H1).
Defined.

Lemma reset_grid_initial_window_witness :
  entries9 (entries almost_solved_window) ∧
  reset_grid almost_solved_window = Ok initial_window ∧
  get_grid_from_entries digit_int (entries initial_window)
  = Ok (inl (replicate 9 (replicate 9 0))).
Proof.
  assert (entries9 (entries almost_solved_window)) as H1 by compute_done.
  split; [assumption|].
  exact (reset_grid_initial_window digit_int almost_solved_window H1).
Defined.

Lemma get_grid_after_fill_witness :
  (∀ n, 1 ≤ n ≤ 9 → digit_str n ≠ EmptyString ∧ digit_int (digit_str n) = Some n) ∧
  entries9 typo_texts ∧ shape9 puzzle_solution ∧
  Forall (Forall (λ v, 1 ≤ v ≤ 9)) puzzle_solution ∧
  ∃ es', fill_grid_to_entries digit_str puzzle_solution typo_texts = Ok es' ∧
         get_grid_from_entries digit_int es' = Ok (inl puzzle_solution).
Proof.
  assert (entries9 typo_texts) as H1 by compute_done.
  assert (shape9 puzzle_solution) as H2 by compute_done.
  assert (Forall (Forall (λ v, 1 ≤ v ≤ 9)) puzzle_solution) as H3 by compute_done.
  split_and!; [apply digit_round_trip|assumption..|].
  exact (get_grid_after_fill digit_int digit_str puzzle_solution typo_texts
           digit_round_trip H1 H2 H3).
Defined.

Lemma solve_button_click_outcome_witness :
  (∀ st s, enumeration st s ≡ₚ elements s) ∧
  entries9 (entries almost_solved_window) ∧ (81 < 82)%nat ∧
  ((∃ dialog,
     get_grid_from_entries digit_int (entries almost_solved_window) = Ok (inr dialog) ∧
     solve_button_click digit_int digit_str enumeration 82 almost_solved_window
     = Shown almost_solved_window [dialog]) ∨
  (∃ g,
     get_grid_from_entries digit_int (entries almost_solved_window) = Ok (inl g) ∧
     (∀ sol, ¬ completes g sol) ∧
     solve_button_click digit_int digit_str enumeration 82 almost_solved_window
     = Shown almost_solved_window [incorrect]) ∨
  (∃ g sol,
     get_grid_from_entries digit_int (entries almost_solved_window) = Ok (inl g) ∧
     completes g sol ∧
     solve_button_click digit_int digit_str enumeration 82 almost_solved_window
     = Shown (mkWindow (printed digit_str sol) false "Reset" reset_grid_command) [])).
Proof.
  assert (entries9 (entries almost_solved_window)) as H1 by compute_done.
  assert (81 < 82)%nat as H2 by lia.
  split_and!; [apply enumeration_perm|assumption..|].
  exact (solve_button_click_outcome digit_int digit_str enumeration enumeration_perm
           82 almost_solved_window H1 H2).
Defined.

(** A click on the window that shows the nearly solved board fills in the
    solution of the puzzle. *)
Example click_solves :
  solve_button_click digit_int digit_str enumeration 82 almost_solved_window
  = Shown (mkWindow (printed digit_str puzzle_solution) false "Reset"
             reset_grid_command) [].
Proof. vm_compute. reflexivity. Qed.
